(** * ap-sheet: the sparse data store [DataFrame] over [Frame] and [Point]

    A shallow embedding of [DataFrame.js] together with the properties its
    specification states about it.

    Conventions of the embedding.
    - Grid coordinates are JavaScript integers; they are modelled by [Z], in
      the range where JavaScript arithmetic on integers is exact and where an
      integer prints as its plain decimal numeral.
    - The object [this.store] is a finite map from string keys to values.
    - A method is a computation over the receiver; a [throw] leaves the
      receiver as it was at the moment of the throw.
    - A registered callback is an observer: a call to it is recorded together
      with its argument and with the store as the callback could read it at
      that moment.  It neither throws nor writes to the DataFrame.
    - [Point.js] and [Frame.js] are not among the sources at hand; what
      [DataFrame.js] uses of them is modelled from the specification, each
      such definition saying so. *)

From Stdlib Require Import Ascii String.
From stdpp Require Import gmap strings list list_numbers pretty.

Local Open Scope Z_scope.

(** ** JavaScript values and the built-ins the class relies on *)

Module Js.

(** A stored value is opaque to the store, except that [undefined] is never
    stored and that [hasCompleteDataForFrame] compares with [== undefined]. *)
Inductive Value :=
| VUndefined
| VNull
| VBoolean (b : bool)
| VNumber (n : Z)
| VString (s : string).

(** [v === undefined] *)
Definition strictly_undefined (v : Value) : bool :=
  match v with VUndefined => true | _ => false end.

(** [v == undefined]: loose equality also identifies [null] with it. *)
Definition loosely_undefined (v : Value) : bool :=
  match v with VUndefined | VNull => true | _ => false end.

(** [obj[key]]: a missing property reads as [undefined]. *)
Definition property (obj : gmap string Value) (key : string) : Value :=
  default VUndefined (obj !! key).

(** [Object.keys(obj)].  The order of the keys is not used by any caller
    in [DataFrame.js] (only their number, minima and maxima are). *)
Definition Object_keys (obj : gmap string Value) : list string :=
  (map_to_list obj).*1.

(** The numbers [parseInt], [Math.min] and [Math.max] can return. *)
Inductive Num :=
| Int (z : Z)
| PosInfinity
| NegInfinity
| NaN.

(** [String(z)] for an integer [z], also what a template literal and
    [Array.prototype.toString] use for an element. *)
Definition Number_toString (z : Z) : string := pretty z.

(** [[a, b, ...].toString()] is [join(",")]. *)
Definition Array_toString (a : list Z) : string :=
  String.concat "," (Number_toString <$> a).

(** [str.split(sep)] for a one-character separator. *)
Fixpoint String_split (sep : ascii) (s : string) : list string :=
  match s with
  | EmptyString => [EmptyString]
  | String c rest =>
      if Ascii.eqb c sep then EmptyString :: String_split sep rest
      else match String_split sep rest with
           | piece :: pieces => String c piece :: pieces
           | [] => [String c EmptyString]
           end
  end.

Definition digit_value (c : ascii) : option Z :=
  let n := Z.of_N (N_of_ascii c) in
  if (48 <=? n) && (n <=? 57) then Some (n - 48) else None.

Definition hex_digit_value (c : ascii) : option Z :=
  let n := Z.of_N (N_of_ascii c) in
  if (48 <=? n) && (n <=? 57) then Some (n - 48)
  else if (97 <=? n) && (n <=? 102) then Some (n - 87)
  else if (65 <=? n) && (n <=? 70) then Some (n - 55)
  else None.

(** The longest prefix of [s] made of digits, as digit values. *)
Fixpoint digits_prefix (digit : ascii → option Z) (s : string) : list Z :=
  match s with
  | EmptyString => []
  | String c rest =>
      match digit c with
      | Some d => d :: digits_prefix digit rest
      | None => []
      end
  end.

Definition number_of_digits (radix : Z) (ds : list Z) : Z :=
  foldl (λ acc d, acc * radix + d) 0 ds.

Definition is_white_space (c : ascii) : bool :=
  let n := N_of_ascii c in
  ((n =? 32) || (n =? 9) || (n =? 10) || (n =? 11) || (n =? 12) || (n =? 13))%N.

Fixpoint trim_start (s : string) : string :=
  match s with
  | String c rest => if is_white_space c then trim_start rest else s
  | EmptyString => s
  end.

Definition parse_digits (radix : Z) (digit : ascii → option Z)
    (sign : Z) (s : string) : Num :=
  match digits_prefix digit s with
  | [] => NaN
  | ds => Int (sign * number_of_digits radix ds)
  end.

(** [parseInt(str)] with the radix left out: leading white space, an
    optional sign, an optional [0x] prefix, then the longest run of digits;
    [NaN] when there is none. *)
Definition parseInt (str : string) : Num :=
  let s := trim_start str in
  let '(sign, s) :=
    match s with
    | String "-"%char rest => (-1, rest)
    | String "+"%char rest => (1, rest)
    | _ => (1, s)
    end in
  match s with
  | String "0"%char (String "x"%char rest)
  | String "0"%char (String "X"%char rest) =>
      parse_digits 16 hex_digit_value sign rest
  | _ => parse_digits 10 digit_value sign s
  end.

(** [a < b] on numbers; every comparison with [NaN] is false. *)
Definition lt (a b : Num) : bool :=
  match a, b with
  | NaN, _ | _, NaN => false
  | Int x, Int y => x <? y
  | NegInfinity, NegInfinity => false
  | NegInfinity, _ => true
  | _, PosInfinity => match a with PosInfinity => false | _ => true end
  | _, _ => false
  end.

Definition min2 (a b : Num) : Num :=
  match a, b with
  | NaN, _ | _, NaN => NaN
  | _, _ => if lt b a then b else a
  end.

Definition max2 (a b : Num) : Num :=
  match a, b with
  | NaN, _ | _, NaN => NaN
  | _, _ => if lt a b then b else a
  end.

(** [Math.min(...xs)]; with no argument the result is [Infinity]. *)
Definition Math_min (xs : list Num) : Num := foldl min2 PosInfinity xs.

(** [Math.max(...xs)]; with no argument the result is [-Infinity]. *)
Definition Math_max (xs : list Num) : Num := foldl max2 NegInfinity xs.

(** [a[i]] on an array of numbers handed on to [Math.min]/[Math.max]: a
    missing element is [undefined], which those convert to [NaN]. *)
Definition element (a : list Num) (i : nat) : Num := default NaN (a !! i).

End Js.

Export Js.

(** ** Points and locations *)

Module Point.

(** Modelled from the spec: [Point.js] is not among the sources.  §3: a Point
    is a pair of integer coordinates [x] and [y]. *)
Record t := mk { x : Z; y : Z }.

End Point.

(** What [putAt], [getAt] and [loadFromArray] accept as a location: a Point
    ([location.isPoint]) or a two-element coordinate array
    ([isCoordinate(location)]). *)
Inductive Location :=
| IsPoint (p : Point.t)
| IsCoordinate (x y : Z).

(** An arbitrary argument in the place of a location: a well-formed location
    or any other object. *)
Inductive Input :=
| Loc (l : Location)
| Other.

(** Modelled from the spec: [Point.js] is not among the sources.  §4.1:
    a Point is constructed from a two-element coordinate pair and exposes
    [x] and [y]; §9: both representations of a location are normalised to
    one.  This is [new Point(origin)]. *)
Definition Point_new (l : Location) : Point.t :=
  match l with
  | IsPoint p => p
  | IsCoordinate x y => Point.mk x y
  end.

(** ** What the methods throw *)

(** The source throws strings; one constructor per [throw] statement, plus the
    two failures that come from outside [DataFrame.js]. *)
Inductive Thrown :=
| InvalidPointOrCoordinate               (* "Invalid Point or Coordinate" *)
| OutsideOfDataFrame (l : Location)      (* `${location} outside of DataFrame` *)
| OriginNotContained (l : Location)      (* `${origin} not contained in this DataFrame` *)
| IncomingDataRunsOutside (o : Point.t)  (* `Incoming data runs outside bounds ...` *)
| FrameNotContained                      (* `Frame is not contained within DataFrame!` *)
| PassedFrameNotContained                (* 'Passed Frame is not contained within DataFrame!' *)
| CornerBeforeOrigin                     (* thrown by the Frame constructor *)
| TypeError.                             (* [data[0].length] when [data[0]] is undefined *)

(** The error kinds of the specification (§7). *)
Inductive ErrorKind :=
| InvalidLocationError
| OutOfBoundsError
| NotContainedError
| InvalidBoundsError
| EmptyStoreError
| RuntimeTypeError.

Definition kind (e : Thrown) : ErrorKind :=
  match e with
  | InvalidPointOrCoordinate => InvalidLocationError
  | OutsideOfDataFrame _ => OutOfBoundsError
  | OriginNotContained _ => OutOfBoundsError
  | IncomingDataRunsOutside _ => OutOfBoundsError
  | FrameNotContained => NotContainedError
  | PassedFrameNotContained => NotContainedError
  | CornerBeforeOrigin => InvalidBoundsError
  | TypeError => RuntimeTypeError
  end.

(** How a statement completes. *)
Inductive Completion (A : Type) :=
| Normal (a : A)
| Throw (e : Thrown).
Arguments Normal {A} a.
Arguments Throw {A} e.

(** ** Frame *)

Module Frame.

(** Modelled from the spec: [Frame.js] is not among the sources.  §3: a Frame
    is an origin and a corner. *)
Record t := mk { origin : Point.t; corner : Point.t }.

(** Modelled from the spec: [Frame.js] is not among the sources.  §4.2:
    construction fails with [InvalidBoundsError] if the corner is not at
    least the origin on both axes. *)
Definition new (o c : Point.t) : Completion t :=
  if (Point.x o <=? Point.x c) && (Point.y o <=? Point.y c)
  then Normal (mk o c)
  else Throw CornerBeforeOrigin.

(** Modelled from the spec: the same constructor handed two arrays of
    numbers, as [minFrame] does.  §3: a Point has integer coordinates, so
    only integers build a Frame; the test of §4.2 fails for the others
    that [minFrame] can produce ([NaN], or [Infinity] with [-Infinity]). *)
Definition new_of_numbers (o c : Num * Num) : Completion t :=
  match o, c with
  | (Int ox, Int oy), (Int cx, Int cy) => new (Point.mk ox oy) (Point.mk cx cy)
  | _, _ => Throw CornerBeforeOrigin
  end.

(** Modelled from the spec: §3, a Frame contains a Point iff its
    coordinates fall within [origin, corner] on both axes. *)
Definition contains_xy (f : t) (x y : Z) : bool :=
  (Point.x (origin f) <=? x) && (x <=? Point.x (corner f))
  && (Point.y (origin f) <=? y) && (y <=? Point.y (corner f)).

(** Modelled from the spec: §3, a coordinate pair is an alias for a Point. *)
Definition contains_location (f : t) (l : Location) : bool :=
  match l with
  | IsPoint p => contains_xy f (Point.x p) (Point.y p)
  | IsCoordinate x y => contains_xy f x y
  end.

(** Modelled from the spec: §3, a Frame contains another Frame iff that
    Frame's origin and corner are both contained. *)
Definition contains_frame (f g : t) : bool :=
  contains_xy f (Point.x (origin g)) (Point.y (origin g))
  && contains_xy f (Point.x (corner g)) (Point.y (corner g)).

(** Modelled from the spec: §3, [width = corner.x - origin.x + 1]. *)
Definition width (f : t) : Z := Point.x (corner f) - Point.x (origin f) + 1.

(** Modelled from the spec: §3, [height = corner.y - origin.y + 1]. *)
Definition height (f : t) : Z := Point.y (corner f) - Point.y (origin f) + 1.

(** Modelled from the spec: §3, [area = width * height]. *)
Definition area (f : t) : Z := width f * height f.

(** Modelled from the spec: §3 and §4.2, the rows of coordinate pairs that
    [forEachCoordinateRow] visits, rows by ascending y and within a row
    by ascending x. *)
Definition coordinateRows (f : t) : list (list (Z * Z)) :=
  (λ y, (λ x, (x, y)) <$> seqZ (Point.x (origin f)) (width f))
    <$> seqZ (Point.y (origin f)) (height f).

(** Modelled from the spec: §4.2, [points] is the same traversal, flat,
    of Points. *)
Definition points (f : t) : list Point.t :=
  (λ c : Z * Z, Point.mk c.1 c.2) <$> concat (coordinateRows f).

End Frame.

(** What [contains] and the callback can be handed. *)
Inductive Region :=
| OfLocation (l : Location)
| OfFrame (f : Frame.t).

(** Modelled from the spec: §4.2, [aFrame.contains(target)] takes a Point, a
    coordinate pair or a Frame and answers a boolean. *)
Definition contains (f : Frame.t) (target : Region) : bool :=
  match target with
  | OfLocation l => Frame.contains_location f l
  | OfFrame g => Frame.contains_frame f g
  end.

(** ** DataFrame *)

(** A registered callback, known by a name. *)
Definition Listener := nat.

(** [DataFrame extends Frame]: the bounds inherited from [Frame], the store
    and the callback slot ([None] is [null]). *)
Record DataFrame := mkDataFrame {
  bounds : Frame.t;
  store : gmap string Value;
  callback : option Listener
}.

(** One call of the callback. *)
Record Call := mkCall {
  callee : Listener;
  argument : Region;
  seen : gmap string Value
}.

(** The receiver and the calls made so far. *)
Record World := mkWorld {
  this : DataFrame;
  calls : list Call
}.

Definition M (A : Type) : Type := World → Completion A * World.

Definition ret {A} (a : A) : M A := λ w, (Normal a, w).

Definition bind {A B} (m : M A) (k : A → M B) : M B :=
  λ w, match m w with
       | (Normal a, w') => k a w'
       | (Throw e, w') => (Throw e, w')
       end.

Definition throw {A} (e : Thrown) : M A := λ w, (Throw e, w).

Definition lift {A} (c : Completion A) : M A := λ w, (c, w).

Definition getThis : M DataFrame := λ w, (Normal (this w), w).

Definition setStore (s : gmap string Value) : M unit :=
  λ w, (Normal tt,
        mkWorld (mkDataFrame (bounds (this w)) s (callback (this w))) (calls w)).

(** [this.callback(arg)] for a registered callback [f]. *)
Definition invoke (f : Listener) (arg : Region) : M unit :=
  λ w, (Normal tt, mkWorld (this w) (calls w ++ [mkCall f arg (store (this w))])).

Declare Scope js_scope.
Delimit Scope js_scope with js.
Notation "'let*' x := m 'in' k" := (bind m (λ x, k))
  (at level 10, x name, m at level 100, k at level 200) : js_scope.
Notation "m ;;; k" := (bind m (λ _, k))
  (at level 100, k at level 200, right associativity) : js_scope.
Local Open Scope js_scope.

(** [list.forEach((item, index) => body)] *)
Fixpoint forEach_from {A} (body : A → Z → M unit) (i : Z) (l : list A) : M unit :=
  match l with
  | [] => ret tt
  | item :: rest => body item i ;;; forEach_from body (i + 1) rest
  end.
Definition forEach {A} (body : A → Z → M unit) (l : list A) : M unit :=
  forEach_from body 0 l.

(** [list.map(item => body)] with a body that may throw *)
Fixpoint map_each {A B} (body : A → M B) (l : list A) : M (list B) :=
  match l with
  | [] => ret []
  | item :: rest =>
      let* b := body item in
      let* bs := map_each body rest in
      ret (b :: bs)
  end.

(** A traversal that updates a local variable declared outside its body. *)
Fixpoint fold_each {A B} (body : B → A → M B) (acc : B) (l : list A) : M B :=
  match l with
  | [] => ret acc
  | item :: rest => let* acc' := body acc item in fold_each body acc' rest
  end.

(** The key under which a Point is stored: [`${x},${y}`]. *)
Definition point_key (x y : Z) : string :=
  Number_toString x +:+ "," +:+ Number_toString y.

(** The key under which a coordinate pair is stored: [location.toString()]. *)
Definition coordinate_key (x y : Z) : string := Array_toString [x; y].

Definition putAt (location : Input) (value : Value) (notify : bool) : M unit :=
  match location with
  | Loc l =>
      let key :=
        match l with
        | IsPoint p => point_key (Point.x p) (Point.y p)
        | IsCoordinate x y => coordinate_key x y
        end in
      let* self := getThis in
      (if strictly_undefined value
       then setStore (delete key (store self))
       else setStore (<[key := value]> (store self))) ;;;
      let* self := getThis in
      match (if notify then callback self else None) with
      | Some f => invoke f (OfLocation l)
      | None => ret tt
      end
  | Other => throw InvalidPointOrCoordinate
  end.

Definition getAt (location : Input) : M Value :=
  let* self := getThis in
  let* key :=
    match location with
    | Loc (IsCoordinate x y as l) =>
        if negb (contains (bounds self) (OfLocation l))
        then throw (OutsideOfDataFrame l)
        else ret (coordinate_key x y)
    | Loc (IsPoint p as l) =>
        if negb (contains (bounds self) (OfLocation l))
        then throw (OutsideOfDataFrame l)
        else ret (point_key (Point.x p) (Point.y p))
    | Other => throw InvalidPointOrCoordinate
    end in
  ret (property (store self) key).

Definition loadFromArray (data : list (list Value)) (origin : Location) : M unit :=
  let* self := getThis in
  if negb (contains (bounds self) (OfLocation origin))
  then throw (OriginNotContained origin)
  else
    let origin := Point_new origin in
    let rowMax := Z.of_nat (length data) - 1 in
    let* row0 := match data with r :: _ => ret r | [] => throw TypeError end in
    let colMax := Z.of_nat (length row0) - 1 in
    let corner := Point.mk (colMax + Point.x origin) (rowMax + Point.y origin) in
    let* comparisonFrame := lift (Frame.new origin corner) in
    if negb (contains (bounds self) (OfFrame comparisonFrame))
    then throw (IncomingDataRunsOutside origin)
    else
      forEach (λ row y,
        forEach (λ value x,
          let adjustedCoord :=
            IsCoordinate (x + Point.x (Frame.origin comparisonFrame))
                         (y + Point.y (Frame.origin comparisonFrame)) in
          putAt (Loc adjustedCoord) value false) row) data ;;;
      let* self := getThis in
      match callback self with
      | Some f => invoke f (OfFrame comparisonFrame)
      | None => ret tt
      end.

(** [aFrame.forEachCoordinateRow(visitor)], the visitor updating [result]. *)
Definition forEachCoordinateRow {B} (aFrame : Frame.t)
    (visitor : B → list (Z * Z) → M B) (result : B) : M B :=
  fold_each visitor result (Frame.coordinateRows aFrame).

Definition getDataArrayForFrame (aFrame : Frame.t) : M (list (list Value)) :=
  let* self := getThis in
  if negb (contains (bounds self) (OfFrame aFrame))
  then throw FrameNotContained
  else
    forEachCoordinateRow aFrame (λ result row,
      let* mappedRow :=
        map_each (λ val : Z * Z, getAt (Loc (IsCoordinate val.1 val.2))) row in
      ret (result ++ [mappedRow])) [].

(** [get isFull()] *)
Definition isFull : M bool :=
  let* self := getThis in
  ret (Frame.area (bounds self) =? Z.of_nat (length (Object_keys (store self)))).

(** The two arrays [minFrame] hands to the Frame constructor. *)
Definition minFrame_arguments (s : gmap string Value) : (Num * Num) * (Num * Num) :=
  let keyCoords :=
    (λ keyString, parseInt <$> String_split "," keyString) <$> Object_keys s in
  let xValues := (λ coord, element coord 0) <$> keyCoords in
  let yValues := (λ coord, element coord 1) <$> keyCoords in
  let origin := (Math_min xValues, Math_min yValues) in
  let corner := (Math_max xValues, Math_max yValues) in
  (origin, corner).

(** [get minFrame()] *)
Definition minFrame : M Frame.t :=
  let* self := getThis in
  let '(origin, corner) := minFrame_arguments (store self) in
  lift (Frame.new_of_numbers origin corner).

(** [get minFrameFromOrigin()] *)
Definition minFrameFromOrigin : M Frame.t :=
  let* self := getThis in
  let* minFrame := minFrame in
  lift (Frame.new
          (Point.mk (Point.x (Frame.origin (bounds self)))
                    (Point.y (Frame.origin (bounds self))))
          (Point.mk (Point.x (Frame.corner minFrame))
                    (Point.y (Frame.corner minFrame)))).

Definition toArray (strict : bool) : M (list (list Value)) :=
  if strict
  then let* f := minFrame in getDataArrayForFrame f
  else let* f := minFrameFromOrigin in getDataArrayForFrame f.

Definition clear : M unit :=
  setStore ∅ ;;;
  let* self := getThis in
  match callback self with
  | Some f =>
      let* whole := lift (Frame.new (Frame.origin (bounds self))
                                    (Frame.corner (bounds self))) in
      invoke f (OfFrame whole)
  | None => ret tt
  end.

(** The [for] loop of [hasCompleteDataForFrame], from index [i] on. *)
Fixpoint hasCompleteData_loop (points : list Point.t) : M bool :=
  match points with
  | [] => ret true
  | thisPoint :: rest =>
      let* v := getAt (Loc (IsPoint thisPoint)) in
      if loosely_undefined v then ret false else hasCompleteData_loop rest
  end.

Definition hasCompleteDataForFrame (aFrame : Frame.t) : M bool :=
  let* self := getThis in
  if negb (contains (bounds self) (OfFrame aFrame))
  then throw PassedFrameNotContained
  else hasCompleteData_loop (Frame.points aFrame).

(** [new DataFrame(origin, corner)]: the Frame constructor, then an empty
    store and no callback. *)
Definition DataFrame_new (origin corner : Point.t) : Completion DataFrame :=
  match Frame.new origin corner with
  | Normal f => Normal (mkDataFrame f ∅ None)
  | Throw e => Throw e
  end.

(** ** Notions used to state the properties *)

(** The key a well-formed location is stored under. *)
Definition key_of (l : Location) : string :=
  match l with
  | IsPoint p => point_key (Point.x p) (Point.y p)
  | IsCoordinate x y => point_key x y
  end.

(** The store after the assignment or the [delete] of [putAt]. *)
Definition written (s : gmap string Value) (key : string) (v : Value)
    : gmap string Value :=
  if strictly_undefined v then delete key s else <[key := v]> s.

(** The receiver with another store. *)
Definition with_store (w : World) (s : gmap string Value) : World :=
  mkWorld (mkDataFrame (bounds (this w)) s (callback (this w))) (calls w).

(** The store after the cells of one row, then of all rows, are written from
    column [X] and row [Y] on. *)
Fixpoint write_row (s : gmap string Value) (X Y : Z) (row : list Value)
    : gmap string Value :=
  match row with
  | [] => s
  | v :: rest => write_row (written s (point_key X Y) v) (X + 1) Y rest
  end.

Fixpoint write_rows (s : gmap string Value) (X Y : Z) (data : list (list Value))
    : gmap string Value :=
  match data with
  | [] => s
  | row :: rest => write_rows (write_row s X Y row) X (Y + 1) rest
  end.

(** The write loops of [loadFromArray] for data anchored at [(X, Y)]. *)
Definition write_loops (X Y : Z) (data : list (list Value)) : M unit :=
  forEach (λ row y,
    forEach (λ value x,
      putAt (Loc (IsCoordinate (x + X) (y + Y))) value false) row) data.

(** The values the store holds at the coordinates of a row. *)
Definition read_row (s : gmap string Value) (row : list (Z * Z)) : list Value :=
  (λ c, property s (point_key c.1 c.2)) <$> row.

(** The region that [rows] by [cols] cells occupy when anchored at [o]. *)
Definition anchored (o : Point.t) (rows cols : nat) : Frame.t :=
  Frame.mk o (Point.mk (Z.of_nat cols - 1 + Point.x o)
                       (Z.of_nat rows - 1 + Point.y o)).

(** The Frame [loadFromArray] computes for [data] anchored at [origin]
    ([comparisonFrame]), or what stops it from being computed. *)
Definition bounding_frame (data : list (list Value)) (origin : Location)
    : Completion Frame.t :=
  match data with
  | [] => Throw TypeError
  | row0 :: _ =>
      Frame.new (Point_new origin)
        (Frame.corner (anchored (Point_new origin) (length data) (length row0)))
  end.

(** Every key of the store was derived from integer coordinates, as the keys
    written by [putAt] are. *)
Definition is_point_key (k : string) : bool :=
  match parseInt <$> String_split "," k with
  | [Int x; Int y] => bool_decide (k = point_key x y)
  | _ => false
  end.
Definition coordinate_keyed (s : gmap string Value) : bool :=
  forallb is_point_key (Object_keys s).

(** The store has an entry for the coordinates [(x, y)]. *)
Definition holds (s : gmap string Value) (x y : Z) : Prop :=
  is_Some (s !! point_key x y).

(** [F] is the tightest Frame around the entries of the store: it encloses
    each of them, and each of its four sides passes through one. *)
Definition tightest (s : gmap string Value) (F : Frame.t) : Prop :=
  (∀ x y, holds s x y → Frame.contains_xy F x y = true)
  ∧ (∃ y, holds s (Point.x (Frame.origin F)) y)
  ∧ (∃ x, holds s x (Point.y (Frame.origin F)))
  ∧ (∃ y, holds s (Point.x (Frame.corner F)) y)
  ∧ (∃ x, holds s x (Point.y (Frame.corner F))).

(** No comma occurs in the string. *)
Fixpoint comma_free (s : string) : Prop :=
  match s with
  | EmptyString => True
  | String c rest => c ≠ ","%char ∧ comma_free rest
  end.

(** ** The callback slot and the public mutators *)

(** [dataFrame.callback = f], as the owner of a DataFrame does. *)
Definition setCallback (f : option Listener) : M unit :=
  λ w, (Normal tt, mkWorld (mkDataFrame (bounds (this w)) (store (this w)) f) (calls w)).

(** One call that can change a DataFrame. *)
Inductive Mutation :=
| DoPutAt (location : Input) (value : Value) (notify : bool)
| DoLoadFromArray (data : list (list Value)) (origin : Location)
| DoClear
| DoSetCallback (f : option Listener).

Definition perform (m : Mutation) : M unit :=
  match m with
  | DoPutAt location value notify => putAt location value notify
  | DoLoadFromArray data origin => loadFromArray data origin
  | DoClear => clear
  | DoSetCallback f => setCallback f
  end.

(** A caller makes the calls one after the other, catching what is thrown:
    after a throw the next call finds the receiver as the throw left it. *)
Fixpoint perform_all (ms : list Mutation) (w : World) : World :=
  match ms with
  | [] => w
  | m :: rest => perform_all rest (perform m w).2
  end.

(** A call that cannot put an entry outside the Frame [F]: a [putAt] that
    deletes or whose location [F] contains, a [loadFromArray] none of whose
    rows is longer than the first, a [clear], an assignment of the callback. *)
Definition stays_inside (F : Frame.t) (m : Mutation) : bool :=
  match m with
  | DoPutAt (Loc l) v _ => strictly_undefined v || contains F (OfLocation l)
  | DoLoadFromArray (row0 :: rest) _ =>
      forallb (λ row, (length row <=? length row0)%nat) rest
  | _ => true
  end.

(** ** Further notions used to state properties *)

(** The coordinates a key stands for, as [minFrame] reads them. *)
Definition decode_key (k : string) : option (Z * Z) :=
  match parseInt <$> String_split "," k with
  | [Int x; Int y] => Some (x, y)
  | _ => None
  end.

(** Every key of the store stands for coordinates that [F] contains. *)
Definition keys_within (F : Frame.t) (s : gmap string Value) : bool :=
  forallb (λ k, match decode_key k with
                | Some (x, y) => Frame.contains_xy F x y
                | None => false
                end) (Object_keys s).

(** The corner of [F] is not before its origin. *)
Definition well_formed (F : Frame.t) : bool :=
  (Point.x (Frame.origin F) <=? Point.x (Frame.corner F))
  && (Point.y (Frame.origin F) <=? Point.y (Frame.corner F)).

(** No cell of the data is [undefined]. *)
Definition fully_defined (data : list (list Value)) : bool :=
  forallb (forallb (λ v, negb (strictly_undefined v))) data.

(** A computation that leaves the receiver and the record of calls as they
    are, whether it returns or throws. *)
Definition read_only {A} (m : M A) : Prop := ∀ w, (m w).2 = w.

(** ** MouseHandler *)

Module MouseHandler.

(** What the handlers read of a DOM event: the element it targets, whether
    [event.target.isCell] is truthy, [event.wheelDelta] (a number, [NaN]
    standing for a missing one in the comparisons), and the modifier keys. *)
Record Event := mkEvent {
  target : nat;
  isCell : bool;
  wheelDelta : Num;
  ctrlKey : bool;
  shiftKey : bool
}.

(** The calls the handlers make on the sheet, its selector, the event and
    the console, in the order they are made. *)
Inductive Call :=
| SetCursorToElement (element : nat)
| SetAnchorToElement (element : nat)
| SelectFromAnchorToRelativeCursor
| MoveToBottomEnd (selecting : bool)
| MoveDownBy (n : Z) (selecting : bool)
| MoveToTopEnd (selecting : bool)
| MoveUpBy (n : Z) (selecting : bool)
| DispatchSelectionChanged
| StopPropagation
| PreventDefault
| ConsoleLog (message : string).

(** The handler's own state. *)
Record t := mk { isSelecting : bool }.

Definition onMouseDown (h : t) (event : Event) : t * list Call :=
  if isCell event
  then (mk true,
        [SetCursorToElement (target event); SetAnchorToElement (target event);
         DispatchSelectionChanged])
  else (h, []).

Definition onMouseUp (h : t) (event : Event) : t * list Call := (mk false, []).

Definition onCellEnter (h : t) (event : Event) : t * list Call :=
  if isCell event && isSelecting h
  then (h,
        [SetCursorToElement (target event); SelectFromAnchorToRelativeCursor;
         DispatchSelectionChanged])
  else (h, []).

Definition onCellLeave (h : t) (event : Event) : t * list Call :=
  if isCell event && isSelecting h
  then (h, [ConsoleLog "leaving"])
  else (h, []).

Definition onDoubleClick (h : t) (event : Event) : t * list Call :=
  if isCell event
  then (h,
        [SetCursorToElement (target event); SetAnchorToElement (target event);
         DispatchSelectionChanged])
  else (h, []).

Definition onMouseWheel (h : t) (event : Event) : t * list Call :=
  (h,
   StopPropagation ::
   if Js.lt (wheelDelta event) (Int 0)
   then [if ctrlKey event then MoveToBottomEnd (shiftKey event)
         else MoveDownBy 1 (shiftKey event);
         PreventDefault; StopPropagation; DispatchSelectionChanged]
   else if Js.lt (Int 0) (wheelDelta event)
   then [if ctrlKey event then MoveToTopEnd (shiftKey event)
         else MoveUpBy 1 (shiftKey event);
         PreventDefault; StopPropagation; DispatchSelectionChanged]
   else []).

(** The event types [addAllListeners] listens to. *)
Inductive EventType := mouseover | mousedown | mouseup | dblclick | wheel.

(** The listener [addAllListeners] registers for each type. *)
Definition listener (type : EventType) : t → Event → t * list Call :=
  match type with
  | mouseover => onCellEnter
  | mousedown => onMouseDown
  | mouseup => onMouseUp
  | dblclick => onDoubleClick
  | wheel => onMouseWheel
  end.

(** The events of a connected handler, handled one after the other. *)
Fixpoint handle_all (h : t) (events : list (EventType * Event)) : t * list Call :=
  match events with
  | [] => (h, [])
  | (type, event) :: rest =>
      let '(h', calls) := listener type h event in
      let '(h'', calls') := handle_all h' rest in
      (h'', calls ++ calls')
  end.

(** A call that moves the cursor, the anchor or the selection. *)
Definition changes_selection (c : Call) : bool :=
  match c with
  | SetCursorToElement _ | SetAnchorToElement _
  | SelectFromAnchorToRelativeCursor
  | MoveToBottomEnd _ | MoveDownBy _ _ | MoveToTopEnd _ | MoveUpBy _ _ => true
  | _ => false
  end.

(** A press of the button on a cell. *)
Definition is_press (e : EventType * Event) : bool :=
  match e.1 with
  | mousedown => isCell e.2
  | _ => false
  end.

End MouseHandler.

(** ** Sample inputs *)

(** A DataFrame over (0,0)-(3,3) that holds one value and has a callback. *)
Definition sample_world : World :=
  mkWorld
    (mkDataFrame (Frame.mk (Point.mk 0 0) (Point.mk 3 3))
       {[ point_key 0 0 := VNumber 5 ]} (Some 1%nat))
    [].

(** A DataFrame over (0,0)-(3,3) with nothing stored and no callback. *)
Definition empty_world : World :=
  mkWorld (mkDataFrame (Frame.mk (Point.mk 0 0) (Point.mk 3 3)) ∅ None) [].

(** A DataFrame over (0,0)-(9,9) with entries exactly at (2,3) and (5,1). *)
Definition two_entries_world : World :=
  mkWorld
    (mkDataFrame (Frame.mk (Point.mk 0 0) (Point.mk 9 9))
       (<[point_key 2 3 := VString "a"]> (<[point_key 5 1 := VNull]> ∅)) None)
    [].

Definition sample_data : list (list Value) :=
  [[VNumber 1; VUndefined]; [VNull; VString "a"]].

(** * Properties *)

(** ** Decimal numerals: printing, splitting and parsing keys *)

Section Numerals.

Lemma pretty_N_char_no_comma n : pretty_N_char n ≠ ","%char.
Proof. unfold pretty_N_char. repeat case_match; discriminate. Qed.

Lemma pretty_N_go_comma_free x s : comma_free s → comma_free (pretty_N_go x s).
Proof.
  revert s. induction (N.lt_wf_0 x) as [x _ IH]; intros s Hs.
  destruct (decide (x = 0%N)) as [->|Hx]; [done|].
  rewrite pretty_N_go_step by lia.
  apply IH; [apply N.div_lt; lia|].
  split; [apply pretty_N_char_no_comma | done].
Qed.

Lemma Number_toString_comma_free z : comma_free (Number_toString z).
Proof.
  unfold Number_toString, pretty, pretty_Z.
  destruct z as [|p|p]; simpl.
  - by split.
  - unfold pretty, pretty_positive, pretty, pretty_N.
    case_decide; [done|]. by apply pretty_N_go_comma_free.
  - split; [discriminate|].
    unfold pretty, pretty_positive, pretty, pretty_N.
    case_decide; [done|]. by apply pretty_N_go_comma_free.
Qed.

Lemma String_split_comma_free s : comma_free s → String_split "," s = [s].
Proof.
  induction s as [|c s IH]; simpl; [done|].
  intros [Hc Hs]. rewrite (IH Hs).
  destruct (Ascii.eqb_spec c ","); [done|done].
Qed.

Lemma String_split_app s t :
  comma_free s → String_split "," (s +:+ String "," t) = s :: String_split "," t.
Proof.
  induction s as [|c s IH]; simpl; [done|].
  intros [Hc Hs]. rewrite (IH Hs).
  by destruct (Ascii.eqb_spec c ",").
Qed.

Lemma point_key_split x y :
  String_split "," (point_key x y) = [Number_toString x; Number_toString y].
Proof.
  change (point_key x y)
    with (Number_toString x +:+ String "," (Number_toString y)).
  rewrite String_split_app by apply Number_toString_comma_free.
  by rewrite String_split_comma_free by apply Number_toString_comma_free.
Qed.

(** Both representations of a location derive the same key. *)
Lemma coordinate_key_point_key x y : coordinate_key x y = point_key x y.
Proof. reflexivity. Qed.

Lemma point_key_inj x y x' y' :
  point_key x y = point_key x' y' → x = x' ∧ y = y'.
Proof.
  intros H. apply (f_equal (String_split ",")) in H.
  rewrite !point_key_split in H. injection H as Hx Hy.
  split; by apply (inj pretty).
Qed.

(** The leading digit of a positive numeral is not zero. *)
Lemma pretty_N_go_head x s :
  (0 < x)%N →
  ∃ n rest, pretty_N_go x s = String (pretty_N_char n) rest ∧ (1 ≤ n ≤ 9)%N.
Proof.
  revert s. induction (N.lt_wf_0 x) as [x _ IH]; intros s Hx.
  rewrite pretty_N_go_step by done.
  destruct (decide (x `div` 10 = 0)%N) as [Hq|Hq].
  - rewrite Hq, pretty_N_go_0.
    exists (x `mod` 10)%N, s. split; [done|].
    pose proof (N.mod_lt x 10 ltac:(lia)).
    pose proof (N.div_mod x 10 ltac:(lia)). lia.
  - apply IH; [apply N.div_lt; lia | by apply N.neq_0_lt_0].
Qed.

Lemma digit_value_pretty_N_char n :
  (n < 10)%N → digit_value (pretty_N_char n) = Some (Z.of_N n).
Proof.
  intros Hn.
  assert (n = 0 ∨ n = 1 ∨ n = 2 ∨ n = 3 ∨ n = 4 ∨ n = 5 ∨ n = 6
          ∨ n = 7 ∨ n = 8 ∨ n = 9)%N as Hcases by lia.
  repeat (destruct Hcases as [->|Hcases]; [reflexivity|]).
  by subst.
Qed.

Lemma digits_prefix_pretty_N_go x s (f : Z → Z → Z) :
  f = (λ acc d, acc * 10 + d) →
  foldl f 0 (digits_prefix digit_value (pretty_N_go x s))
  = foldl f (Z.of_N x) (digits_prefix digit_value s).
Proof.
  intros ->. revert s. induction (N.lt_wf_0 x) as [x _ IH]; intros s.
  destruct (decide (x = 0%N)) as [->|Hx]; [done|].
  rewrite pretty_N_go_step by lia.
  rewrite IH by (apply N.div_lt; lia).
  simpl. rewrite digit_value_pretty_N_char by (apply N.mod_lt; lia).
  simpl. f_equal.
  pose proof (N.div_mod x 10 ltac:(lia)). lia.
Qed.

Lemma parse_digits_pretty_N_go sign x :
  (0 < x)%N →
  parse_digits 10 digit_value sign (pretty_N_go x "") = Int (sign * Z.of_N x).
Proof.
  intros Hx. unfold parse_digits, number_of_digits.
  pose proof (digits_prefix_pretty_N_go x "" _ eq_refl) as Hfold.
  destruct (pretty_N_go_head x "" Hx) as (n & rest & Hhead & Hn).
  rewrite Hhead in *. cbn [digits_prefix] in *.
  rewrite digit_value_pretty_N_char in * by lia.
  by rewrite Hfold.
Qed.

Lemma parseInt_pretty_N_go x :
  (0 < x)%N →
  parseInt (pretty_N_go x "") = Int (1 * Z.of_N x)
  ∧ parseInt (String "-" (pretty_N_go x "")) = Int (-1 * Z.of_N x).
Proof.
  intros Hx.
  pose proof (parse_digits_pretty_N_go 1 x Hx) as Hplus.
  pose proof (parse_digits_pretty_N_go (-1) x Hx) as Hminus.
  destruct (pretty_N_go_head x "" Hx) as (n & rest & Hhead & Hn).
  assert (n = 1 ∨ n = 2 ∨ n = 3 ∨ n = 4 ∨ n = 5 ∨ n = 6
          ∨ n = 7 ∨ n = 8 ∨ n = 9)%N as Hcases by lia.
  rewrite Hhead in *.
  repeat (destruct Hcases as [->|Hcases];
          [split; [exact Hplus|exact Hminus]|]).
  subst. split; [exact Hplus|exact Hminus].
Qed.

(** [parseInt] reads back the integer that was printed. *)
Lemma parseInt_Number_toString z : parseInt (Number_toString z) = Int z.
Proof.
  unfold Number_toString, pretty, pretty_Z.
  destruct z as [|p|p]; [done|..];
    unfold pretty, pretty_positive, pretty, pretty_N;
    (case_decide; [done|]);
    destruct (parseInt_pretty_N_go (N.pos p)) as [Hplus Hminus]; try lia.
  - rewrite Hplus. f_equal.
  - change ("-" +:+ pretty_N_go (N.pos p) "")
      with (String "-" (pretty_N_go (N.pos p) "")).
    rewrite Hminus. f_equal.
Qed.

End Numerals.

(** ** Running the methods *)

Section Methods.

Implicit Types (w : World) (l : Location) (v : Value) (s : gmap string Value).

Lemma property_written_eq s k v : property (written s k v) k = v.
Proof.
  unfold property, written. destruct v; simpl;
    by rewrite ?lookup_delete_eq, ?lookup_insert_eq.
Qed.

Lemma property_written_ne s k k' v :
  k ≠ k' → property (written s k v) k' = property s k'.
Proof.
  intros Hne. unfold property, written. destruct v; simpl;
    by rewrite ?lookup_delete_ne, ?lookup_insert_ne.
Qed.

(** [putAt] on a well-formed location: no test of the bounds, no throw. *)
Lemma putAt_Loc w l v notify :
  putAt (Loc l) v notify w
  = (Normal tt,
     mkWorld (this (with_store w (written (store (this w)) (key_of l) v)))
       (calls w ++
        match (if notify then callback (this w) else None) with
        | Some f => [mkCall f (OfLocation l)
                       (written (store (this w)) (key_of l) v)]
        | None => []
        end)).
Proof.
  unfold putAt, written, with_store, bind, getThis, setStore, invoke, ret.
  destruct l, v, notify; simpl; destruct (callback (this w));
    simpl; rewrite ?app_nil_r; reflexivity.
Qed.

Lemma putAt_quiet w l v :
  putAt (Loc l) v false w
  = (Normal tt, with_store w (written (store (this w)) (key_of l) v)).
Proof. rewrite putAt_Loc. unfold with_store. simpl. by rewrite app_nil_r. Qed.

Lemma getAt_Loc w l :
  getAt (Loc l) w
  = if contains (bounds (this w)) (OfLocation l)
    then (Normal (property (store (this w)) (key_of l)), w)
    else (Throw (OutsideOfDataFrame l), w).
Proof.
  unfold getAt, bind, getThis, throw, ret.
  destruct (contains (bounds (this w)) (OfLocation l)) eqn:Hin;
    destruct l; reflexivity.
Qed.

Lemma with_store_id w : with_store w (store (this w)) = w.
Proof. by destruct w as [[] ?]. Qed.

(** The inner loop of [loadFromArray] writes one row, and never throws. *)
Lemma forEach_row_run w X Y i row :
  forEach_from (λ value x, putAt (Loc (IsCoordinate (x + X) Y)) value false) i row w
  = (Normal tt, with_store w (write_row (store (this w)) (i + X) Y row)).
Proof.
  revert i w. induction row as [|v row IH]; intros i w;
    cbn [forEach_from write_row].
  - unfold ret. by rewrite with_store_id.
  - unfold bind at 1. rewrite putAt_quiet, IH. simpl.
    by replace (i + 1 + X) with (i + X + 1) by lia.
Qed.

(** The outer loop writes the rows one after the other, and never throws. *)
Lemma forEach_rows_run w X Y j data :
  forEach_from (λ row y,
    forEach (λ value x,
      putAt (Loc (IsCoordinate (x + X) (y + Y))) value false) row) j data w
  = (Normal tt, with_store w (write_rows (store (this w)) X (j + Y) data)).
Proof.
  revert j w. induction data as [|row data IH]; intros j w;
    cbn [forEach_from write_rows].
  - unfold ret. by rewrite with_store_id.
  - unfold bind at 1, forEach at 1. rewrite forEach_row_run, IH. simpl.
    by replace (j + 1 + Y) with (j + Y + 1) by lia.
Qed.

Lemma write_loops_run w X Y data :
  write_loops X Y data w
  = (Normal tt, with_store w (write_rows (store (this w)) X Y data)).
Proof. exact (forEach_rows_run w X Y 0 data). Qed.

(** What [loadFromArray] does, statement by statement. *)
Lemma loadFromArray_run w data origin :
  loadFromArray data origin w
  = if negb (contains (bounds (this w)) (OfLocation origin))
    then (Throw (OriginNotContained origin), w)
    else
      match bounding_frame data origin with
      | Throw e => (Throw e, w)
      | Normal region =>
          if negb (contains (bounds (this w)) (OfFrame region))
          then (Throw (IncomingDataRunsOutside (Point_new origin)), w)
          else
            let s := write_rows (store (this w)) (Point.x (Point_new origin))
                       (Point.y (Point_new origin)) data in
            (Normal tt,
             mkWorld (this (with_store w s))
               (calls w ++
                match callback (this w) with
                | Some f => [mkCall f (OfFrame region) s]
                | None => []
                end))
      end.
Proof.
  unfold loadFromArray, bind at 1, getThis at 1.
  destruct (negb (contains (bounds (this w)) (OfLocation origin))); [done|].
  destruct data as [|row0 data]; [done|].
  unfold bind at 1, ret at 1. cbn [bounding_frame anchored Frame.corner].
  unfold bind at 1, lift.
  destruct (Frame.new _ _) as [region|e] eqn:Hnew; [|done].
  destruct (negb (contains (bounds (this w)) (OfFrame region))); [done|].
  assert (Frame.origin region = Point_new origin) as ->.
  { unfold Frame.new in Hnew. case_match; by simplify_eq. }
  fold (write_loops (Point.x (Point_new origin)) (Point.y (Point_new origin))
          (row0 :: data)).
  unfold bind. rewrite write_loops_run.
  unfold getThis, invoke, ret, with_store. simpl.
  destruct (callback (this w)); simpl; rewrite ?app_nil_r; reflexivity.
Qed.

Lemma bounding_frame_origin data origin region :
  bounding_frame data origin = Normal region →
  Frame.origin region = Point_new origin.
Proof.
  destruct data; [done|]. unfold bounding_frame, Frame.new.
  case_match; [|done]. by intros [= <-].
Qed.

End Methods.

(** ** What the write loops leave in the store *)

Section Written.

Implicit Types (s : gmap string Value) (row : list Value).

Lemma write_row_other s X Y row k :
  (∀ j : nat, (j < length row)%nat → k ≠ point_key (X + Z.of_nat j) Y) →
  property (write_row s X Y row) k = property s k.
Proof.
  revert s X. induction row as [|v row IH]; intros s X Hk; simpl; [done|].
  rewrite IH.
  - apply property_written_ne. intros <-.
    apply (Hk 0%nat); [simpl; lia|]. by rewrite Z.add_0_r.
  - intros j Hj. replace (X + 1 + Z.of_nat j) with (X + Z.of_nat (S j)) by lia.
    apply Hk. simpl. lia.
Qed.

Lemma write_row_cell s X Y row (j : nat) v :
  row !! j = Some v →
  property (write_row s X Y row) (point_key (X + Z.of_nat j) Y) = v.
Proof.
  revert s X j. induction row as [|v0 row IH]; intros s X j Hj; [done|].
  destruct j as [|j]; cbn [write_row].
  - injection Hj as ->. rewrite write_row_other.
    + rewrite Z.add_0_r. apply property_written_eq.
    + intros j _ Heq. apply point_key_inj in Heq. lia.
  - replace (X + Z.of_nat (S j)) with (X + 1 + Z.of_nat j) by lia.
    by apply IH.
Qed.

Lemma write_rows_other s X Y (data : list (list Value)) k :
  (∀ (i j : nat) row, data !! i = Some row → (j < length row)%nat →
     k ≠ point_key (X + Z.of_nat j) (Y + Z.of_nat i)) →
  property (write_rows s X Y data) k = property s k.
Proof.
  revert s Y. induction data as [|row data IH]; intros s Y Hk; simpl; [done|].
  rewrite IH.
  - apply write_row_other. intros j Hj.
    specialize (Hk 0%nat j row eq_refl Hj). by rewrite Z.add_0_r in Hk.
  - intros i j row' Hi Hj.
    replace (Y + 1 + Z.of_nat i) with (Y + Z.of_nat (S i)) by lia.
    by apply (Hk (S i) j row').
Qed.

Lemma write_rows_cell s X Y (data : list (list Value)) (i j : nat) row v :
  data !! i = Some row → row !! j = Some v →
  property (write_rows s X Y data) (point_key (X + Z.of_nat j) (Y + Z.of_nat i)) = v.
Proof.
  revert s Y i. induction data as [|row0 data IH]; intros s Y i Hi Hj; [done|].
  destruct i as [|i]; cbn [write_rows].
  - injection Hi as ->. rewrite write_rows_other.
    + rewrite Z.add_0_r. by apply write_row_cell.
    + intros i' j' row' _ _ Heq. apply point_key_inj in Heq. lia.
  - replace (Y + Z.of_nat (S i)) with (Y + 1 + Z.of_nat i) by lia.
    by apply IH.
Qed.

End Written.

(** ** Reading a region back *)

Section Extraction.

Implicit Types (w : World) (F : Frame.t).

Lemma map_each_getAt w (coords : list (Z * Z)) :
  Forall (λ c, Frame.contains_xy (bounds (this w)) c.1 c.2 = true) coords →
  map_each (λ val : Z * Z, getAt (Loc (IsCoordinate val.1 val.2))) coords w
  = (Normal (read_row (store (this w)) coords), w).
Proof.
  induction 1 as [|c coords Hc _ IH]; cbn [map_each]; [done|].
  unfold bind at 1. rewrite getAt_Loc. cbn [contains Frame.contains_location].
  rewrite Hc. unfold bind at 1. rewrite IH. reflexivity.
Qed.

Lemma contains_xy_spec F x y :
  Frame.contains_xy F x y = true ↔
  Point.x (Frame.origin F) ≤ x ≤ Point.x (Frame.corner F)
  ∧ Point.y (Frame.origin F) ≤ y ≤ Point.y (Frame.corner F).
Proof. unfold Frame.contains_xy. rewrite !andb_true_iff, !Z.leb_le. lia. Qed.

(** The coordinates a contained Frame enumerates are all within bounds. *)
Lemma coordinateRows_contained F G :
  Frame.contains_frame F G = true →
  Forall (Forall (λ c, Frame.contains_xy F c.1 c.2 = true)) (Frame.coordinateRows G).
Proof.
  unfold Frame.contains_frame. rewrite andb_true_iff, !contains_xy_spec.
  intros [Ho Hc]. unfold Frame.coordinateRows, Frame.width, Frame.height.
  apply Forall_fmap, Forall_seqZ. intros y Hy.
  apply Forall_fmap, Forall_seqZ. intros x Hx. simpl.
  apply contains_xy_spec. lia.
Qed.

Lemma fold_each_rows w (rows : list (list (Z * Z))) (result : list (list Value)) :
  Forall (Forall (λ c, Frame.contains_xy (bounds (this w)) c.1 c.2 = true)) rows →
  fold_each (λ result row,
    let* mappedRow :=
      map_each (λ val : Z * Z, getAt (Loc (IsCoordinate val.1 val.2))) row in
    ret (result ++ [mappedRow])) result rows w
  = (Normal (result ++ (read_row (store (this w)) <$> rows)), w).
Proof.
  intros Hrows. revert result.
  induction Hrows as [|row rows Hrow _ IH]; intros result; cbn [fold_each].
  - unfold ret. by rewrite app_nil_r.
  - unfold bind at 1 2. rewrite map_each_getAt by done.
    unfold ret at 1. rewrite IH. by rewrite <- app_assoc.
Qed.

(** What [getDataArrayForFrame] returns for a contained Frame. *)
Lemma getDataArrayForFrame_contained w F :
  contains (bounds (this w)) (OfFrame F) = true →
  getDataArrayForFrame F w
  = (Normal (read_row (store (this w)) <$> Frame.coordinateRows F), w).
Proof.
  intros Hin. unfold getDataArrayForFrame, bind at 1, getThis.
  rewrite Hin. cbn [negb]. unfold forEachCoordinateRow.
  by rewrite fold_each_rows by by apply coordinateRows_contained.
Qed.

Lemma getDataArrayForFrame_not_contained w F :
  contains (bounds (this w)) (OfFrame F) = false →
  getDataArrayForFrame F w = (Throw FrameNotContained, w).
Proof.
  intros Hout. unfold getDataArrayForFrame, bind at 1, getThis.
  by rewrite Hout.
Qed.

End Extraction.

(** ** Bulk load and extraction *)

Section RoundTrip.

Implicit Types (w : World) (data : list (list Value)).

Lemma anchored_width o rows cols : Frame.width (anchored o rows cols) = Z.of_nat cols.
Proof. unfold Frame.width, anchored. simpl. lia. Qed.

Lemma anchored_height o rows cols : Frame.height (anchored o rows cols) = Z.of_nat rows.
Proof. unfold Frame.height, anchored. simpl. lia. Qed.

Lemma anchored_new o rows cols :
  (0 < rows)%nat → (0 < cols)%nat →
  Frame.new o (Frame.corner (anchored o rows cols)) = Normal (anchored o rows cols).
Proof.
  intros Hrows Hcols. unfold Frame.new, anchored. simpl.
  rewrite (proj2 (Z.leb_le _ _)), (proj2 (Z.leb_le _ _)) by lia. done.
Qed.

Lemma contains_Point_new F origin :
  contains F (OfLocation origin)
  = Frame.contains_xy F (Point.x (Point_new origin)) (Point.y (Point_new origin)).
Proof. by destruct origin. Qed.

(** Reading the written region row by row gives the rows that were written. *)
Lemma read_written_region s X Y data (cols : nat) :
  Forall (λ row, length row = cols) data →
  read_row (write_rows s X Y data)
    <$> ((λ y, (λ x, (x, y)) <$> seqZ X (Z.of_nat cols))
           <$> seqZ Y (Z.of_nat (length data)))
  = data.
Proof.
  intros Hrect. apply list_eq. intros i. rewrite !list_lookup_fmap.
  destruct (data !! i) as [row|] eqn:Hi.
  - pose proof (lookup_lt_Some _ _ _ Hi) as Hlt.
    rewrite lookup_seqZ_lt by lia. simpl. f_equal.
    pose proof (proj1 (Forall_lookup _ _) Hrect i row Hi) as Hlen. simpl in Hlen.
    apply list_eq. intros j. unfold read_row. rewrite !list_lookup_fmap.
    destruct (row !! j) as [v|] eqn:Hj.
    + pose proof (lookup_lt_Some _ _ _ Hj).
      rewrite lookup_seqZ_lt by lia. simpl. f_equal.
      by eapply write_rows_cell.
    + apply lookup_ge_None in Hj. by rewrite lookup_seqZ_ge by lia.
  - apply lookup_ge_None in Hi. by rewrite lookup_seqZ_ge by lia.
Qed.

End RoundTrip.

(** ** The extent of the stored keys *)

Section Extent.

Implicit Types (s : gmap string Value) (l : list Z) (P : list (Z * Z)).

Lemma min2_Int a b : min2 (Int a) (Int b) = Int (Z.min a b).
Proof.
  unfold min2, lt. destruct (Z.ltb_spec b a); f_equal; lia.
Qed.

Lemma max2_Int a b : max2 (Int a) (Int b) = Int (Z.max a b).
Proof.
  unfold max2, lt. destruct (Z.ltb_spec a b); f_equal; lia.
Qed.

Lemma foldl_min2_Int a l : foldl min2 (Int a) (Int <$> l) = Int (foldl Z.min a l).
Proof.
  revert a. induction l as [|z l IH]; intros a; [done|].
  rewrite fmap_cons. cbn [foldl]. by rewrite min2_Int, IH.
Qed.

Lemma foldl_max2_Int a l : foldl max2 (Int a) (Int <$> l) = Int (foldl Z.max a l).
Proof.
  revert a. induction l as [|z l IH]; intros a; [done|].
  rewrite fmap_cons. cbn [foldl]. by rewrite max2_Int, IH.
Qed.

Lemma Math_min_cons z l :
  Math_min (Int z :: (Int <$> l)) = Int (foldl Z.min z l).
Proof. unfold Math_min. apply foldl_min2_Int. Qed.

Lemma Math_max_cons z l :
  Math_max (Int z :: (Int <$> l)) = Int (foldl Z.max z l).
Proof. unfold Math_max. apply foldl_max2_Int. Qed.

Lemma foldl_min_bound a l :
  foldl Z.min a l ≤ a ∧ ∀ z, z ∈ l → foldl Z.min a l ≤ z.
Proof.
  revert a. induction l as [|h l IH]; intros a; simpl.
  - split; [lia|]. intros z Hz. by apply elem_of_nil in Hz.
  - destruct (IH (Z.min a h)) as [Hle Hall]. split; [lia|].
    intros z [->|Hz]%elem_of_cons; [lia|by apply Hall].
Qed.

Lemma foldl_min_attained a l : foldl Z.min a l ∈ a :: l.
Proof.
  revert a. induction l as [|h l IH]; intros a; simpl; [set_solver|].
  specialize (IH (Z.min a h)).
  apply elem_of_cons in IH as [Heq|Hin]; [|set_solver].
  rewrite Heq. destruct (Z.min_spec a h) as [[_ ->]|[_ ->]]; set_solver.
Qed.

Lemma foldl_max_bound a l :
  a ≤ foldl Z.max a l ∧ ∀ z, z ∈ l → z ≤ foldl Z.max a l.
Proof.
  revert a. induction l as [|h l IH]; intros a; simpl.
  - split; [lia|]. intros z Hz. by apply elem_of_nil in Hz.
  - destruct (IH (Z.max a h)) as [Hle Hall]. split; [lia|].
    intros z [->|Hz]%elem_of_cons; [lia|by apply Hall].
Qed.

Lemma foldl_max_attained a l : foldl Z.max a l ∈ a :: l.
Proof.
  revert a. induction l as [|h l IH]; intros a; simpl; [set_solver|].
  specialize (IH (Z.max a h)).
  apply elem_of_cons in IH as [Heq|Hin]; [|set_solver].
  rewrite Heq. destruct (Z.max_spec a h) as [[_ ->]|[_ ->]]; set_solver.
Qed.

(** A key made from coordinates splits and parses back to them. *)
Lemma point_key_parse x y :
  parseInt <$> String_split "," (point_key x y) = [Int x; Int y].
Proof. rewrite point_key_split. simpl. by rewrite !parseInt_Number_toString. Qed.

Lemma is_point_key_spec k : is_point_key k = true ↔ ∃ x y, k = point_key x y.
Proof.
  unfold is_point_key. split.
  - repeat case_match; try discriminate.
    intros Hk%bool_decide_eq_true. eauto.
  - intros (x & y & ->). rewrite point_key_parse. by apply bool_decide_eq_true.
Qed.

Lemma holds_Object_keys s x y : holds s x y ↔ point_key x y ∈ Object_keys s.
Proof.
  unfold holds, Object_keys. rewrite list_elem_of_fmap. split.
  - intros [v Hv]. exists (point_key x y, v). split; [done|].
    by apply elem_of_map_to_list.
  - intros ([k v] & -> & Hkv). apply elem_of_map_to_list in Hkv. by exists v.
Qed.

(** The keys of a coordinate-keyed store are the keys of a list of
    coordinates. *)
Lemma coordinate_keyed_decode s :
  coordinate_keyed s = true →
  ∃ P, Object_keys s = (λ c, point_key c.1 c.2) <$> P.
Proof.
  unfold coordinate_keyed. generalize (Object_keys s). intros keys.
  induction keys as [|k keys IH]; simpl.
  - intros _. by exists [].
  - intros [Hk Hkeys]%andb_true_iff.
    apply is_point_key_spec in Hk as (x & y & ->).
    destruct (IH Hkeys) as [P ->]. by exists ((x, y) :: P).
Qed.

Lemma minFrame_arguments_decode s P :
  Object_keys s = (λ c, point_key c.1 c.2) <$> P →
  minFrame_arguments s
  = ((Math_min (Int <$> P.*1), Math_min (Int <$> P.*2)),
     (Math_max (Int <$> P.*1), Math_max (Int <$> P.*2))).
Proof.
  intros Hkeys. unfold minFrame_arguments. rewrite Hkeys.
  rewrite <- !list_fmap_compose.
  assert (∀ i f, (∀ c, f c = element [Int c.1; Int c.2] i) →
    (λ c : Z * Z, element (parseInt <$> String_split "," (point_key c.1 c.2)) i)
      <$> P = f <$> P) as Hext.
  { intros i f Hf. apply list_fmap_ext. intros _ c _.
    by rewrite point_key_parse, Hf. }
  unfold compose.
  by rewrite (Hext 0%nat (λ c, Int c.1)), (Hext 1%nat (λ c, Int c.2)).
Qed.

Lemma holds_decoded s P x y :
  Object_keys s = (λ c, point_key c.1 c.2) <$> P →
  holds s x y ↔ (x, y) ∈ P.
Proof.
  intros Hkeys. rewrite holds_Object_keys, Hkeys, list_elem_of_fmap. split.
  - intros ([x' y'] & Heq & Hin). simpl in Heq.
    apply point_key_inj in Heq as [-> ->]. done.
  - intros Hin. by exists (x, y).
Qed.

(** [minFrame] on a store that is not empty: the Frame from the least to
    the greatest coordinates among the keys. *)
Lemma minFrame_run (w : World) :
  store (this w) ≠ ∅ →
  coordinate_keyed (store (this w)) = true →
  ∃ F, minFrame w = (Normal F, w) ∧ tightest (store (this w)) F.
Proof.
  intros Hne Hkeyed.
  destruct (coordinate_keyed_decode _ Hkeyed) as [P HP].
  destruct P as [|[x0 y0] P].
  { exfalso. apply Hne, map_to_list_empty_iff.
    unfold Object_keys in HP. by apply fmap_nil_inv in HP. }
  unfold minFrame, bind, getThis.
  rewrite (minFrame_arguments_decode _ _ HP). rewrite !fmap_cons.
  rewrite !Math_min_cons, !Math_max_cons. cbn [fst snd].
  pose proof (foldl_min_bound x0 (P.*1)) as [Hx1 Hx2].
  pose proof (foldl_min_bound y0 (P.*2)) as [Hy1 Hy2].
  pose proof (foldl_max_bound x0 (P.*1)) as [HX1 HX2].
  pose proof (foldl_max_bound y0 (P.*2)) as [HY1 HY2].
  unfold lift, Frame.new_of_numbers, Frame.new. cbn [Point.x Point.y].
  rewrite (proj2 (Z.leb_le _ _)), (proj2 (Z.leb_le _ _)) by lia. cbn [andb].
  eexists. split; [reflexivity|].
  assert (∀ x, x ∈ x0 :: P.*1 → ∃ y, holds (store (this w)) x y) as Hxs.
  { intros x Hx. change (x ∈ ((x0, y0) :: P).*1) in Hx.
    apply list_elem_of_fmap in Hx as ([x' y] & -> & Hin).
    exists y. by apply (holds_decoded _ _ _ _ HP). }
  assert (∀ y, y ∈ y0 :: P.*2 → ∃ x, holds (store (this w)) x y) as Hys.
  { intros y Hy. change (y ∈ ((x0, y0) :: P).*2) in Hy.
    apply list_elem_of_fmap in Hy as ([x y'] & -> & Hin).
    exists x. by apply (holds_decoded _ _ _ _ HP). }
  unfold tightest. cbn [Frame.origin Frame.corner Point.x Point.y].
  split; [|auto using foldl_min_attained, foldl_max_attained].
  intros x y Hxy. apply (holds_decoded _ _ _ _ HP) in Hxy.
  apply contains_xy_spec. cbn [Frame.origin Frame.corner Point.x Point.y].
  apply elem_of_cons in Hxy as [[= -> ->]|Hin]; [lia|].
  assert (x ∈ P.*1) as Hx by (apply list_elem_of_fmap; by exists (x, y)).
  assert (y ∈ P.*2) as Hy by (apply list_elem_of_fmap; by exists (x, y)).
  specialize (Hx2 x Hx). specialize (Hy2 y Hy).
  specialize (HX2 x Hx). specialize (HY2 y Hy). lia.
Qed.

Lemma coordinate_keyed_spec s :
  coordinate_keyed s = true ↔ ∀ k, is_Some (s !! k) → ∃ x y, k = point_key x y.
Proof.
  unfold coordinate_keyed, Object_keys.
  rewrite forallb_forall. setoid_rewrite is_point_key_spec.
  setoid_rewrite <- list_elem_of_In. setoid_rewrite list_elem_of_fmap. split.
  - intros Hall k [v Hv]. apply Hall. exists (k, v). split; [done|].
    by apply elem_of_map_to_list.
  - intros Hall k ([k' v] & -> & Hin). apply Hall. exists v.
    by apply elem_of_map_to_list.
Qed.

(** The keys [putAt] writes are keys of coordinates, so every store built
    by [putAt] from the empty one is coordinate-keyed. *)
Lemma putAt_coordinate_keyed (w w' : World) (l : Location) v notify :
  coordinate_keyed (store (this w)) = true →
  putAt (Loc l) v notify w = (Normal tt, w') →
  coordinate_keyed (store (this w')) = true.
Proof.
  rewrite putAt_Loc. intros Hkeyed [= <-]. cbn [this with_store store].
  apply coordinate_keyed_spec. intros k Hk.
  destruct (decide (k = key_of l)) as [->|Hne].
  - destruct l; simpl; eauto.
  - apply (proj1 (coordinate_keyed_spec _) Hkeyed).
    unfold written in Hk. destruct (strictly_undefined v).
    + by rewrite lookup_delete_ne in Hk.
    + by rewrite lookup_insert_ne in Hk.
Qed.

Lemma minFrameFromOrigin_run (w : World) F :
  minFrame w = (Normal F, w) →
  minFrameFromOrigin w
  = (Frame.new (Frame.origin (bounds (this w))) (Frame.corner F), w).
Proof.
  intros HF. unfold minFrameFromOrigin, bind, getThis. rewrite HF.
  unfold lift. by destruct (Frame.origin _), (Frame.corner F).
Qed.

End Extent.

(** ** Completeness of a region *)

Section Completeness.

Implicit Types (w : World) (F : Frame.t).

(** What the loop of [hasCompleteDataForFrame] answers over in-bounds
    Points: whether no value read is [== undefined]. *)
Lemma hasCompleteData_loop_run w (points : list Point.t) :
  Forall (λ p, Frame.contains_xy (bounds (this w)) (Point.x p) (Point.y p) = true)
    points →
  hasCompleteData_loop points w
  = (Normal (forallb (λ p, negb (loosely_undefined
               (property (store (this w)) (point_key (Point.x p) (Point.y p)))))
               points), w).
Proof.
  induction 1 as [|p points Hp _ IH]; cbn [hasCompleteData_loop forallb]; [done|].
  unfold bind. rewrite getAt_Loc. cbn [contains Frame.contains_location].
  rewrite Hp. cbn [key_of].
  destruct (loosely_undefined _); cbn [negb andb]; [done|apply IH].
Qed.

Lemma points_contained F G :
  Frame.contains_frame F G = true →
  Forall (λ p, Frame.contains_xy F (Point.x p) (Point.y p) = true) (Frame.points G).
Proof.
  intros Hin. unfold Frame.points. apply Forall_fmap. simpl.
  apply Forall_concat. by apply coordinateRows_contained.
Qed.

Lemma hasCompleteDataForFrame_run w F :
  hasCompleteDataForFrame F w
  = if contains (bounds (this w)) (OfFrame F)
    then (Normal (forallb (λ p, negb (loosely_undefined
                    (property (store (this w)) (point_key (Point.x p) (Point.y p)))))
                    (Frame.points F)), w)
    else (Throw PassedFrameNotContained, w).
Proof.
  unfold hasCompleteDataForFrame, bind, getThis.
  destruct (contains _ _) eqn:Hin; cbn [negb]; [|done].
  by apply hasCompleteData_loop_run, points_contained.
Qed.

End Completeness.

(** * The claims *)

(** C1.  Round trip: for a rectangular array of [rows] by [cols] values
    (both positive) and an origin such that the region anchored there lies
    within the bounds, [loadFromArray(data, origin)] succeeds and
    [getDataArrayForFrame] on the Frame of exactly that region then returns
    [data] itself, rows (y) outside and columns (x) inside. *)
Theorem loadFromArray_then_getDataArrayForFrame
    (w : World) (data : list (list Value)) (origin : Location) (rows cols : nat) :
  (0 < rows)%nat → (0 < cols)%nat →
  length data = rows →
  Forall (λ row, length row = cols) data →
  contains (bounds (this w)) (OfFrame (anchored (Point_new origin) rows cols)) = true →
  ∃ w',
    loadFromArray data origin w = (Normal tt, w')
    ∧ getDataArrayForFrame (anchored (Point_new origin) rows cols) w'
      = (Normal data, w').
Proof.
  intros Hrows Hcols Hlen Hrect Hin.
  assert (contains (bounds (this w)) (OfLocation origin) = true) as Horigin.
  { rewrite contains_Point_new. cbn [contains] in Hin.
    unfold Frame.contains_frame in Hin. by apply andb_true_iff in Hin as [? _]. }
  destruct data as [|row0 rest]; [simpl in Hlen; lia|].
  assert (length row0 = cols) as Hrow0 by by inversion Hrect.
  rewrite loadFromArray_run, Horigin. unfold bounding_frame.
  rewrite Hlen, Hrow0, anchored_new, Hin by done. cbn [negb].
  eexists. split; [reflexivity|].
  rewrite getDataArrayForFrame_contained by exact Hin.
  f_equal. f_equal. unfold Frame.coordinateRows.
  rewrite anchored_width, anchored_height, <- Hlen.
  by apply read_written_region.
Qed.

Lemma loadFromArray_then_getDataArrayForFrame_witness :
  contains (bounds (this sample_world)) (OfFrame (anchored (Point.mk 1 1) 2 2)) = true
  ∧ ∃ w',
      loadFromArray sample_data (IsCoordinate 1 1) sample_world = (Normal tt, w')
      ∧ getDataArrayForFrame (anchored (Point.mk 1 1) 2 2) w'
        = (Normal sample_data, w').
Proof.
  split; [reflexivity|].
  apply (loadFromArray_then_getDataArrayForFrame
           sample_world sample_data (IsCoordinate 1 1) 2 2);
    [lia | lia | reflexivity | repeat constructor | reflexivity].
Defined.

(** C2.  [loadFromArray] is all-or-nothing.  When the origin is not contained
    in the bounds, or the bounding Frame computed for the data is not, the call
    throws an out-of-bounds error and the receiver is what it was; and whenever
    the call throws at all, nothing has been written: the store (and the whole
    receiver) is exactly what it was before the call. *)
Theorem loadFromArray_all_or_nothing
    (w : World) (data : list (list Value)) (origin : Location) :
  (contains (bounds (this w)) (OfLocation origin) = false
   ∨ (∃ region, bounding_frame data origin = Normal region
               ∧ contains (bounds (this w)) (OfFrame region) = false) →
   ∃ e, loadFromArray data origin w = (Throw e, w) ∧ kind e = OutOfBoundsError)
  ∧ (∀ e w', loadFromArray data origin w = (Throw e, w') → w' = w).
Proof.
  rewrite loadFromArray_run. split.
  - intros [Hout|(region & Hregion & Hout)].
    + rewrite Hout. by eexists.
    + destruct (contains _ (OfLocation origin)); cbn [negb]; [|by eexists].
      rewrite Hregion, Hout. by eexists.
  - intros e w'.
    destruct (contains _ (OfLocation origin)); cbn [negb]; [|congruence].
    destruct (bounding_frame data origin) as [region|e']; [|congruence].
    destruct (contains _ (OfFrame region)); cbn [negb]; [|congruence].
    discriminate.
Qed.

Lemma loadFromArray_all_or_nothing_witness :
  ∃ e, loadFromArray sample_data (IsCoordinate 3 3) sample_world
       = (Throw e, sample_world)
       ∧ kind e = OutOfBoundsError.
Proof.
  apply (proj1 (loadFromArray_all_or_nothing
                  sample_world sample_data (IsCoordinate 3 3))).
  right. exists (anchored (Point.mk 3 3) 2 2). split; reflexivity.
Defined.

(** C8.  On a successful [loadFromArray], the cells are written by the loops
    of [putAt(adjustedCoord, value, false)], which make no call of the
    callback; a registered callback is then called exactly once, after all
    the writes (it sees the final store), with the computed bounding Frame as
    its argument; without a callback no call is made. *)
Theorem loadFromArray_notifies_once
    (w w' : World) (data : list (list Value)) (origin : Location) :
  loadFromArray data origin w = (Normal tt, w') →
  ∃ region,
    bounding_frame data origin = Normal region
    ∧ write_loops (Point.x (Frame.origin region)) (Point.y (Frame.origin region))
        data w
      = (Normal tt, mkWorld (this w') (calls w))
    ∧ calls w'
      = calls w ++
        match callback (this w) with
        | Some f => [mkCall f (OfFrame region) (store (this w'))]
        | None => []
        end.
Proof.
  rewrite loadFromArray_run.
  destruct (contains _ (OfLocation origin)); cbn [negb]; [|discriminate].
  destruct (bounding_frame data origin) as [region|e] eqn:Hregion; [|discriminate].
  destruct (contains _ (OfFrame region)); cbn [negb]; [|discriminate].
  intros [= <-]. exists region. split; [done|].
  rewrite (bounding_frame_origin _ _ _ Hregion), write_loops_run.
  split; reflexivity.
Qed.

Lemma loadFromArray_notifies_once_witness :
  ∃ region,
    bounding_frame sample_data (IsCoordinate 1 1) = Normal region
    ∧ write_loops (Point.x (Frame.origin region)) (Point.y (Frame.origin region))
        sample_data sample_world
      = (Normal tt,
         mkWorld (this (loadFromArray sample_data (IsCoordinate 1 1) sample_world).2)
           (calls sample_world))
    ∧ calls (loadFromArray sample_data (IsCoordinate 1 1) sample_world).2
      = [mkCall 1%nat (OfFrame region)
           (store (this (loadFromArray sample_data (IsCoordinate 1 1) sample_world).2))].
Proof.
  apply (loadFromArray_notifies_once sample_world
           (loadFromArray sample_data (IsCoordinate 1 1) sample_world).2
           sample_data (IsCoordinate 1 1)).
  vm_compute. reflexivity.
Defined.

(** C3.  Bounds are checked on read and not on write.  For every well-formed
    location (a Point or a coordinate pair), inside the bounds or not,
    [putAt] completes normally, leaves the bounds as they are, and the store
    is the old one with the entry assigned (deleted for [undefined]);
    [getAt] on a well-formed location throws an out-of-bounds error if and
    only if the location is not contained in the bounds. *)
Theorem putAt_unchecked_getAt_checked
    (w : World) (l : Location) (v : Value) (notify : bool) :
  (∃ w',
     putAt (Loc l) v notify w = (Normal tt, w')
     ∧ bounds (this w') = bounds (this w)
     ∧ store (this w')
       = if strictly_undefined v then delete (key_of l) (store (this w))
         else <[key_of l := v]> (store (this w)))
  ∧ ((∃ e w', getAt (Loc l) w = (Throw e, w') ∧ kind e = OutOfBoundsError)
     ↔ contains (bounds (this w)) (OfLocation l) = false).
Proof.
  split.
  - rewrite putAt_Loc. eexists. split; [reflexivity|]. by split.
  - rewrite getAt_Loc. destruct (contains _ _); split.
    + intros (e & w' & Hthrow & _). discriminate.
    + discriminate.
    + done.
    + intros _. by eexists _, _.
Qed.

(** C4.  The last write is read back.  For an in-bounds Point [p]:
    after [putAt(p, v)] with [v] not [undefined], [getAt(p)] returns [v];
    after [putAt(p, undefined)] the entry at [p] is gone and [getAt(p)]
    returns [undefined] without throwing. *)
Theorem putAt_then_getAt (w : World) (p : Point.t) (notify : bool) :
  contains (bounds (this w)) (OfLocation (IsPoint p)) = true →
  (∀ v, v ≠ VUndefined →
     ∃ w', putAt (Loc (IsPoint p)) v notify w = (Normal tt, w')
           ∧ getAt (Loc (IsPoint p)) w' = (Normal v, w'))
  ∧ (∃ w', putAt (Loc (IsPoint p)) VUndefined notify w = (Normal tt, w')
           ∧ store (this w') !! key_of (IsPoint p) = None
           ∧ getAt (Loc (IsPoint p)) w' = (Normal VUndefined, w')).
Proof.
  intros Hin. split.
  - intros v Hv. rewrite putAt_Loc. eexists. split; [reflexivity|].
    rewrite getAt_Loc. cbn [this with_store bounds]. rewrite Hin.
    cbn [store]. by rewrite property_written_eq.
  - rewrite putAt_Loc. eexists. split; [reflexivity|].
    rewrite getAt_Loc. cbn [this with_store bounds store]. rewrite Hin.
    split; [apply lookup_delete_eq|]. by rewrite property_written_eq.
Qed.

Lemma putAt_then_getAt_witness :
  (∃ w', putAt (Loc (IsPoint (Point.mk 0 0))) (VString "b") true sample_world
         = (Normal tt, w')
         ∧ getAt (Loc (IsPoint (Point.mk 0 0))) w' = (Normal (VString "b"), w'))
  ∧ (∃ w', putAt (Loc (IsPoint (Point.mk 0 0))) VUndefined true sample_world
           = (Normal tt, w')
           ∧ store (this w') !! key_of (IsPoint (Point.mk 0 0)) = None
           ∧ getAt (Loc (IsPoint (Point.mk 0 0))) w' = (Normal VUndefined, w')).
Proof.
  destruct (putAt_then_getAt sample_world (Point.mk 0 0) true eq_refl)
    as [Hset Hunset].
  split; [apply Hset; discriminate | exact Hunset].
Defined.

(** C10.  A Point and a coordinate pair for the same integers are
    interchangeable, because both derive the same key ["x,y"]: for in-bounds
    [(x, y)] and [v] not [undefined], [putAt] with the Point then [getAt] with
    the pair returns [v], and [putAt] with the pair then [getAt] with the
    Point returns [v]. *)
Theorem point_and_pair_interchangeable
    (w : World) (x y : Z) (v : Value) (notify : bool) :
  Frame.contains_xy (bounds (this w)) x y = true →
  v ≠ VUndefined →
  point_key x y = coordinate_key x y
  ∧ (∃ w', putAt (Loc (IsPoint (Point.mk x y))) v notify w = (Normal tt, w')
           ∧ getAt (Loc (IsCoordinate x y)) w' = (Normal v, w'))
  ∧ (∃ w', putAt (Loc (IsCoordinate x y)) v notify w = (Normal tt, w')
           ∧ getAt (Loc (IsPoint (Point.mk x y))) w' = (Normal v, w')).
Proof.
  intros Hin Hv. split; [symmetry; apply coordinate_key_point_key|].
  split; rewrite putAt_Loc; (eexists; split; [reflexivity|]);
    rewrite getAt_Loc; cbn [this with_store bounds store contains
      Frame.contains_location key_of Point.x Point.y];
    rewrite Hin; by rewrite property_written_eq.
Qed.

Lemma point_and_pair_interchangeable_witness :
  point_key 2 3 = coordinate_key 2 3
  ∧ (∃ w', putAt (Loc (IsPoint (Point.mk 2 3))) VNull true sample_world
           = (Normal tt, w')
           ∧ getAt (Loc (IsCoordinate 2 3)) w' = (Normal VNull, w'))
  ∧ (∃ w', putAt (Loc (IsCoordinate 2 3)) VNull true sample_world
           = (Normal tt, w')
           ∧ getAt (Loc (IsPoint (Point.mk 2 3))) w' = (Normal VNull, w')).
Proof.
  apply (point_and_pair_interchangeable sample_world 2 3 VNull true);
    [reflexivity | discriminate].
Defined.

(** C6.  For every store that is not empty (its keys being keys of
    coordinates, as all keys written by [putAt] are), [minFrame] is the
    tightest Frame around the present keys: its origin is the componentwise
    minimum and its corner the componentwise maximum of their coordinates;
    [minFrameFromOrigin] builds its Frame from the declared origin and that
    same corner.  In particular, with entries exactly at (2,3) and (5,1),
    [minFrame] is (2,1)-(5,3) and, the declared origin being (0,0),
    [minFrameFromOrigin] is (0,0)-(5,3). *)
Theorem minFrame_tightest_and_from_origin :
  (∀ w : World,
     store (this w) ≠ ∅ →
     coordinate_keyed (store (this w)) = true →
     ∃ F,
       minFrame w = (Normal F, w)
       ∧ tightest (store (this w)) F
       ∧ minFrameFromOrigin w
         = (Frame.new (Frame.origin (bounds (this w))) (Frame.corner F), w)
       ∧ (Point.x (Frame.origin (bounds (this w))) ≤ Point.x (Frame.corner F) →
          Point.y (Frame.origin (bounds (this w))) ≤ Point.y (Frame.corner F) →
          minFrameFromOrigin w
          = (Normal (Frame.mk (Frame.origin (bounds (this w))) (Frame.corner F)), w)))
  ∧ (∀ (v1 v2 : Value) (corner : Point.t) (cb : option Listener) (cs : list Call),
       let w :=
         mkWorld
           (mkDataFrame (Frame.mk (Point.mk 0 0) corner)
              (<[point_key 2 3 := v1]> (<[point_key 5 1 := v2]> ∅)) cb) cs in
       minFrame w = (Normal (Frame.mk (Point.mk 2 1) (Point.mk 5 3)), w)
       ∧ minFrameFromOrigin w
         = (Normal (Frame.mk (Point.mk 0 0) (Point.mk 5 3)), w)).
Proof.
  split.
  - intros w Hne Hkeyed.
    destruct (minFrame_run w Hne Hkeyed) as (F & HF & Htight).
    exists F. split; [done|]. split; [done|].
    rewrite (minFrameFromOrigin_run w F HF). split; [done|].
    intros Hx Hy. unfold Frame.new.
    by rewrite (proj2 (Z.leb_le _ _) Hx), (proj2 (Z.leb_le _ _) Hy).
  - intros v1 v2 corner cb cs w. subst w. split; vm_compute; reflexivity.
Qed.

Lemma minFrame_tightest_and_from_origin_witness :
  ∃ F,
    minFrame two_entries_world = (Normal F, two_entries_world)
    ∧ tightest (store (this two_entries_world)) F
    ∧ minFrameFromOrigin two_entries_world
      = (Frame.new (Frame.origin (bounds (this two_entries_world)))
           (Frame.corner F), two_entries_world)
    ∧ (Point.x (Frame.origin (bounds (this two_entries_world)))
         ≤ Point.x (Frame.corner F) →
       Point.y (Frame.origin (bounds (this two_entries_world)))
         ≤ Point.y (Frame.corner F) →
       minFrameFromOrigin two_entries_world
       = (Normal (Frame.mk (Frame.origin (bounds (this two_entries_world)))
                    (Frame.corner F)), two_entries_world)).
Proof.
  apply (proj1 minFrame_tightest_and_from_origin two_entries_world).
  - vm_compute. discriminate.
  - vm_compute. reflexivity.
Defined.

(** C7 does not hold of the code: on the DataFrame [empty_world], whose store
    has no entries, [minFrame] hands the results of [Math.min] and
    [Math.max] on no arguments to the Frame constructor; what comes back is
    the constructor's refusal of a corner before the origin, which is not an
    empty-store error, and no Frame is returned. *)
Lemma minFrame_empty_store_counterexample :
  store (this empty_world) = ∅
  ∧ minFrame_arguments (store (this empty_world))
    = ((Math_min [], Math_min []), (Math_max [], Math_max []))
  ∧ minFrame empty_world = (Throw CornerBeforeOrigin, empty_world)
  ∧ kind CornerBeforeOrigin ≠ EmptyStoreError.
Proof. repeat split; [reflexivity..|discriminate]. Qed.

(** C7, amended.  When the store has no entries, [minFrame] makes no test
    for emptiness: the minima are [Infinity] and the maxima [-Infinity], they
    are handed unchanged to the Frame constructor as origin and corner, and
    the outcome of [minFrame] is the outcome of the constructor on them; with
    the constructor of the specification this is the refusal of a corner
    before the origin (an invalid-bounds error), and the receiver is left as
    it was. *)
Theorem minFrame_empty_store (w : World) :
  store (this w) = ∅ →
  minFrame_arguments (store (this w))
  = ((PosInfinity, PosInfinity), (NegInfinity, NegInfinity))
  ∧ minFrame w
    = (Frame.new_of_numbers (PosInfinity, PosInfinity) (NegInfinity, NegInfinity), w)
  ∧ minFrame w = (Throw CornerBeforeOrigin, w)
  ∧ kind CornerBeforeOrigin = InvalidBoundsError.
Proof.
  intros Hempty. unfold minFrame, bind, getThis. rewrite Hempty.
  repeat split; reflexivity.
Qed.

Lemma minFrame_empty_store_witness :
  minFrame_arguments (store (this empty_world))
  = ((PosInfinity, PosInfinity), (NegInfinity, NegInfinity))
  ∧ minFrame empty_world
    = (Frame.new_of_numbers (PosInfinity, PosInfinity) (NegInfinity, NegInfinity),
       empty_world)
  ∧ minFrame empty_world = (Throw CornerBeforeOrigin, empty_world)
  ∧ kind CornerBeforeOrigin = InvalidBoundsError.
Proof. apply (minFrame_empty_store empty_world). reflexivity. Defined.

(** C9.  [isFull] only compares the number of keys with the area.  There is
    a DataFrame and two calls of [putAt], one of them at a location outside
    the bounds, after which [isFull] answers true although an in-bounds
    Point has no entry and [getAt] there returns [undefined]. *)
Theorem isFull_counts_keys_only :
  ∃ (d : DataFrame) (inside outside : Location) (v : Value) (p : Point.t)
    (w' : World),
    DataFrame_new (Point.mk 0 0) (Point.mk 1 0) = Normal d
    ∧ contains (bounds d) (OfLocation inside) = true
    ∧ contains (bounds d) (OfLocation outside) = false
    ∧ contains (bounds d) (OfLocation (IsPoint p)) = true
    ∧ (putAt (Loc inside) v true ;;; putAt (Loc outside) v true) (mkWorld d [])
      = (Normal tt, w')
    ∧ isFull w' = (Normal true, w')
    ∧ store (this w') !! key_of (IsPoint p) = None
    ∧ getAt (Loc (IsPoint p)) w' = (Normal VUndefined, w').
Proof.
  eexists _, (IsPoint (Point.mk 0 0)), (IsCoordinate 5 5), (VNumber 1),
    (Point.mk 1 0), _.
  repeat split; vm_compute; reflexivity.
Qed.

(** C5 fails on a stored [null].  In a DataFrame over the single Point (0,0),
    after [putAt([0,0], null)] the store has an entry at (0,0) and [isFull]
    answers true, yet [hasCompleteDataForFrame] over that Point answers
    false, because its test is the loose [== undefined]. *)
Theorem hasCompleteDataForFrame_null_entry :
  ∃ (d : DataFrame) (w' : World),
    DataFrame_new (Point.mk 0 0) (Point.mk 0 0) = Normal d
    ∧ putAt (Loc (IsCoordinate 0 0)) VNull true (mkWorld d []) = (Normal tt, w')
    ∧ store (this w') !! point_key 0 0 = Some VNull
    ∧ isFull w' = (Normal true, w')
    ∧ hasCompleteDataForFrame (Frame.mk (Point.mk 0 0) (Point.mk 0 0)) w'
      = (Normal false, w').
Proof. eexists _, _. repeat split; vm_compute; reflexivity. Qed.

(** * Further properties of the code *)

(** ** Keys *)


(** ** Single writes and reads *)

Section SingleCell.

Implicit Types (w : World) (l : Location) (v : Value).

Lemma key_of_Point_new l :
  key_of l = point_key (Point.x (Point_new l)) (Point.y (Point_new l)).
Proof. by destruct l. Qed.

Lemma key_of_inj l l' : key_of l = key_of l' → Point_new l = Point_new l'.
Proof.
  rewrite !key_of_Point_new. intros [Hx Hy]%point_key_inj.
  destruct (Point_new l), (Point_new l'). simpl in *. by subst.
Qed.

Lemma lookup_written_ne (s : gmap string Value) k k' v :
  k ≠ k' → written s k v !! k' = s !! k'.
Proof.
  intros Hne. unfold written.
  destruct (strictly_undefined v); by rewrite ?lookup_delete_ne, ?lookup_insert_ne.
Qed.

End SingleCell.


(** X3.  Entries do not collide.  A write at one location leaves what [getAt]
    answers at every location with other coordinates as it was, whether the
    two locations are given as Points or as coordinate pairs and whether
    they are inside the bounds or not. *)
Theorem putAt_leaves_other_locations (w : World) (l l' : Location) (v : Value)
    (notify : bool) :
  Point_new l ≠ Point_new l' →
  ∃ w',
    putAt (Loc l) v notify w = (Normal tt, w')
    ∧ store (this w') !! key_of l' = store (this w) !! key_of l'
    ∧ (getAt (Loc l') w').1 = (getAt (Loc l') w).1.
Proof.
  intros Hne. rewrite putAt_Loc. eexists. split; [reflexivity|].
  assert (key_of l ≠ key_of l') as Hkey by (intros Heq; by apply Hne, key_of_inj).
  cbn [this with_store store]. split; [by apply lookup_written_ne|].
  rewrite !getAt_Loc. cbn [this bounds store].
  destruct (contains _ _); [|done]. cbn [fst].
  by rewrite property_written_ne.
Qed.

Lemma putAt_leaves_other_locations_witness :
  ∃ w',
    putAt (Loc (IsPoint (Point.mk 1 11))) (VNumber 7) true sample_world
    = (Normal tt, w')
    ∧ store (this w') !! key_of (IsCoordinate 11 1)
      = store (this sample_world) !! key_of (IsCoordinate 11 1)
    ∧ (getAt (Loc (IsCoordinate 11 1)) w').1
      = (getAt (Loc (IsCoordinate 11 1)) sample_world).1.
Proof.
  apply (putAt_leaves_other_locations sample_world
           (IsPoint (Point.mk 1 11)) (IsCoordinate 11 1) (VNumber 7) true).
  discriminate.
Defined.

(** ** Queries *)

Section ReadOnly.

Lemma read_only_ret {A} (a : A) : read_only (ret a).
Proof. by intros w. Qed.

Lemma read_only_throw {A} e : read_only (throw (A:=A) e).
Proof. by intros w. Qed.

Lemma read_only_lift {A} (c : Completion A) : read_only (lift c).
Proof. by intros w. Qed.

Lemma read_only_getThis : read_only getThis.
Proof. by intros w. Qed.

Lemma read_only_bind {A B} (m : M A) (k : A → M B) :
  read_only m → (∀ a, read_only (k a)) → read_only (bind m k).
Proof.
  intros Hm Hk w. unfold bind. specialize (Hm w).
  destruct (m w) as [[a|e] w']; simpl in Hm; subst; [apply Hk|done].
Qed.

Lemma read_only_getAt input : read_only (getAt input).
Proof.
  intros w. destruct input as [l|]; [|done].
  rewrite getAt_Loc. by destruct (contains _ _).
Qed.

Lemma read_only_map_each {A B} (body : A → M B) l :
  (∀ a, read_only (body a)) → read_only (map_each body l).
Proof.
  intros Hbody. induction l as [|a l IH]; cbn [map_each];
    [apply read_only_ret|].
  apply read_only_bind; [done|]. intros b.
  apply read_only_bind; [done|]. intros bs. apply read_only_ret.
Qed.

Lemma read_only_fold_each {A B} (body : B → A → M B) acc l :
  (∀ b a, read_only (body b a)) → read_only (fold_each body acc l).
Proof.
  intros Hbody. revert acc. induction l as [|a l IH]; intros acc;
    cbn [fold_each]; [apply read_only_ret|].
  apply read_only_bind; [done|]. intros b. apply IH.
Qed.

Lemma read_only_getDataArrayForFrame F : read_only (getDataArrayForFrame F).
Proof.
  apply read_only_bind; [apply read_only_getThis|]. intros self.
  destruct (negb _); [apply read_only_throw|].
  apply read_only_fold_each. intros result row.
  apply read_only_bind; [|intros; apply read_only_ret].
  apply read_only_map_each. intros c. apply read_only_getAt.
Qed.

Lemma read_only_hasCompleteData_loop points : read_only (hasCompleteData_loop points).
Proof.
  induction points as [|p points IH]; cbn [hasCompleteData_loop];
    [apply read_only_ret|].
  apply read_only_bind; [apply read_only_getAt|]. intros v.
  destruct (loosely_undefined v); [apply read_only_ret|apply IH].
Qed.

Lemma read_only_minFrame : read_only minFrame.
Proof.
  apply read_only_bind; [apply read_only_getThis|]. intros self.
  destruct (minFrame_arguments _). apply read_only_lift.
Qed.

Lemma read_only_minFrameFromOrigin : read_only minFrameFromOrigin.
Proof.
  apply read_only_bind; [apply read_only_getThis|]. intros self.
  apply read_only_bind; [apply read_only_minFrame|]. intros F.
  apply read_only_lift.
Qed.

End ReadOnly.

(** X4.  The queries never change the DataFrame and never call the callback,
    whatever they are asked and whether they return or throw: [getAt],
    [getDataArrayForFrame], [hasCompleteDataForFrame], [isFull], [minFrame],
    [minFrameFromOrigin] and [toArray]. *)
Theorem queries_read_only (input : Input) (F : Frame.t) (strict : bool) :
  read_only (getAt input)
  ∧ read_only (getDataArrayForFrame F)
  ∧ read_only (hasCompleteDataForFrame F)
  ∧ read_only isFull
  ∧ read_only minFrame
  ∧ read_only minFrameFromOrigin
  ∧ read_only (toArray strict).
Proof.
  split; [apply read_only_getAt|].
  split; [apply read_only_getDataArrayForFrame|].
  split.
  { apply read_only_bind; [apply read_only_getThis|]. intros self.
    destruct (negb _); [apply read_only_throw|apply read_only_hasCompleteData_loop]. }
  split.
  { apply read_only_bind; [apply read_only_getThis|]. intros self.
    apply read_only_ret. }
  split; [apply read_only_minFrame|].
  split; [apply read_only_minFrameFromOrigin|].
  destruct strict; cbn [toArray];
    (apply read_only_bind;
     [apply read_only_minFrame || apply read_only_minFrameFromOrigin
     |intros ?; apply read_only_getDataArrayForFrame]).
Qed.

(** ** Regions *)

Section Regions.

Implicit Types (w : World) (F : Frame.t).

(** The Points of a Frame are the Points it contains. *)
Lemma points_spec F (p : Point.t) :
  p ∈ Frame.points F ↔ Frame.contains_xy F (Point.x p) (Point.y p) = true.
Proof.
  unfold Frame.points, Frame.coordinateRows, Frame.width, Frame.height.
  rewrite list_elem_of_fmap, contains_xy_spec. split.
  - intros ([x y] & -> & Hin). apply list_elem_of_In, in_concat in Hin.
    destruct Hin as (row & Hrow%list_elem_of_In & Hin%list_elem_of_In).
    apply list_elem_of_fmap in Hrow as (y' & -> & Hy%elem_of_seqZ).
    apply list_elem_of_fmap in Hin as (x' & [= -> ->] & Hx%elem_of_seqZ).
    simpl. lia.
  - intros [Hx Hy]. exists (Point.x p, Point.y p). split; [by destruct p|].
    apply list_elem_of_In, in_concat.
    exists ((λ x, (x, Point.y p)) <$>
              seqZ (Point.x (Frame.origin F))
                (Point.x (Frame.corner F) - Point.x (Frame.origin F) + 1)).
    split; apply list_elem_of_In, list_elem_of_fmap.
    + exists (Point.y p). split; [done|]. apply elem_of_seqZ. lia.
    + exists (Point.x p). split; [done|]. apply elem_of_seqZ. lia.
Qed.

End Regions.

(** X5.  For a Frame contained in the bounds, [getDataArrayForFrame] returns
    [height] rows of [width] values each, and the value in row [i], column
    [j] is what the store holds for the coordinates [(origin.x + j,
    origin.y + i)], [undefined] where nothing is stored; the DataFrame is
    left as it was. *)
Theorem getDataArrayForFrame_rows_and_cells (w : World) (F : Frame.t) :
  contains (bounds (this w)) (OfFrame F) = true →
  ∃ rows,
    getDataArrayForFrame F w = (Normal rows, w)
    ∧ length rows = Z.to_nat (Frame.height F)
    ∧ Forall (λ row, length row = Z.to_nat (Frame.width F)) rows
    ∧ ∀ (i j : nat) row v,
        rows !! i = Some row → row !! j = Some v →
        v = property (store (this w))
              (point_key (Point.x (Frame.origin F) + Z.of_nat j)
                         (Point.y (Frame.origin F) + Z.of_nat i)).
Proof.
  intros Hin. rewrite getDataArrayForFrame_contained by done.
  eexists. split; [reflexivity|]. unfold Frame.coordinateRows, read_row.
  split; [by rewrite !length_fmap, length_seqZ|]. split.
  - apply Forall_fmap, Forall_fmap, Forall_forall. intros y _.
    unfold compose. by rewrite !length_fmap, length_seqZ.
  - intros i j row v. rewrite !list_lookup_fmap.
    destruct (seqZ _ (Frame.height F) !! i) as [y|] eqn:Hy; [|done].
    simpl. intros [= <-]. rewrite !list_lookup_fmap.
    destruct (seqZ _ (Frame.width F) !! j) as [x|] eqn:Hx; [|done].
    simpl. intros [= <-].
    apply lookup_seqZ in Hy as [-> _]. by apply lookup_seqZ in Hx as [-> _].
Qed.

Lemma getDataArrayForFrame_rows_and_cells_witness :
  ∃ rows,
    getDataArrayForFrame (Frame.mk (Point.mk 0 0) (Point.mk 1 1)) sample_world
    = (Normal rows, sample_world)
    ∧ length rows = Z.to_nat (Frame.height (Frame.mk (Point.mk 0 0) (Point.mk 1 1)))
    ∧ Forall (λ row, length row
                = Z.to_nat (Frame.width (Frame.mk (Point.mk 0 0) (Point.mk 1 1))))
        rows
    ∧ ∀ (i j : nat) row v,
        rows !! i = Some row → row !! j = Some v →
        v = property (store (this sample_world))
              (point_key (0 + Z.of_nat j) (0 + Z.of_nat i)).
Proof.
  apply (getDataArrayForFrame_rows_and_cells sample_world
           (Frame.mk (Point.mk 0 0) (Point.mk 1 1))).
  reflexivity.
Defined.

(** X6.  For a Frame contained in the bounds, [hasCompleteDataForFrame]
    answers true exactly when, at every Point the Frame contains, the stored
    value is neither missing nor [undefined] nor [null] (it is not
    [== undefined]); the DataFrame is left as it was. *)
Theorem hasCompleteDataForFrame_answer (w : World) (F : Frame.t) :
  contains (bounds (this w)) (OfFrame F) = true →
  ∃ b,
    hasCompleteDataForFrame F w = (Normal b, w)
    ∧ (b = true ↔
       ∀ x y, Frame.contains_xy F x y = true →
         loosely_undefined (property (store (this w)) (point_key x y)) = false).
Proof.
  intros Hin. rewrite hasCompleteDataForFrame_run, Hin.
  eexists. split; [reflexivity|].
  rewrite forallb_forall. setoid_rewrite <- list_elem_of_In. split.
  - intros Hall x y Hxy.
    specialize (Hall (Point.mk x y)). simpl in Hall.
    apply negb_true_iff, Hall, points_spec. done.
  - intros Hall p Hp%points_spec. apply negb_true_iff. by apply Hall.
Qed.

Lemma hasCompleteDataForFrame_answer_witness :
  ∃ b,
    hasCompleteDataForFrame (Frame.mk (Point.mk 0 0) (Point.mk 0 0)) sample_world
    = (Normal b, sample_world)
    ∧ (b = true ↔
       ∀ x y, Frame.contains_xy (Frame.mk (Point.mk 0 0) (Point.mk 0 0)) x y = true →
         loosely_undefined (property (store (this sample_world)) (point_key x y))
         = false).
Proof.
  apply (hasCompleteDataForFrame_answer sample_world
           (Frame.mk (Point.mk 0 0) (Point.mk 0 0))).
  reflexivity.
Defined.

(** X7.  The two methods that take a Frame throw a not-contained error, and
    leave the DataFrame as it was, if and only if the Frame is not contained
    in the bounds; for a contained Frame neither of them throws, although
    both read through the bounds-checking [getAt]. *)
Theorem uncontained_frames_rejected (w : World) (F : Frame.t) :
  ((∃ e w', getDataArrayForFrame F w = (Throw e, w'))
   ↔ contains (bounds (this w)) (OfFrame F) = false)
  ∧ ((∃ e w', hasCompleteDataForFrame F w = (Throw e, w'))
     ↔ contains (bounds (this w)) (OfFrame F) = false)
  ∧ (contains (bounds (this w)) (OfFrame F) = false →
     getDataArrayForFrame F w = (Throw FrameNotContained, w)
     ∧ hasCompleteDataForFrame F w = (Throw PassedFrameNotContained, w)
     ∧ kind FrameNotContained = NotContainedError
     ∧ kind PassedFrameNotContained = NotContainedError).
Proof.
  rewrite hasCompleteDataForFrame_run.
  destruct (contains _ _) eqn:Hin.
  - rewrite getDataArrayForFrame_contained by done.
    repeat split; try discriminate; by intros (? & ? & ?).
  - rewrite getDataArrayForFrame_not_contained by done.
    repeat split; eauto.
Qed.

(** ** Bulk load, cell by cell *)

Section LoadedCells.

Implicit Types (s : gmap string Value) (row : list Value).

Lemma write_row_lookup_other s X Y row k :
  (∀ j : nat, (j < length row)%nat → k ≠ point_key (X + Z.of_nat j) Y) →
  write_row s X Y row !! k = s !! k.
Proof.
  revert s X. induction row as [|v row IH]; intros s X Hk; simpl; [done|].
  rewrite IH.
  - apply lookup_written_ne. intros <-.
    apply (Hk 0%nat); [simpl; lia|]. by rewrite Z.add_0_r.
  - intros j Hj. replace (X + 1 + Z.of_nat j) with (X + Z.of_nat (S j)) by lia.
    apply Hk. simpl. lia.
Qed.

Lemma write_rows_lookup_other s X Y (data : list (list Value)) k :
  (∀ (i j : nat) row, data !! i = Some row → (j < length row)%nat →
     k ≠ point_key (X + Z.of_nat j) (Y + Z.of_nat i)) →
  write_rows s X Y data !! k = s !! k.
Proof.
  revert s Y. induction data as [|row data IH]; intros s Y Hk; simpl; [done|].
  rewrite IH.
  - apply write_row_lookup_other. intros j Hj.
    specialize (Hk 0%nat j row eq_refl Hj). by rewrite Z.add_0_r in Hk.
  - intros i j row' Hi Hj.
    replace (Y + 1 + Z.of_nat i) with (Y + Z.of_nat (S i)) by lia.
    by apply (Hk (S i) j row').
Qed.

(** The store after a successful [loadFromArray]. *)
Lemma loadFromArray_store (w w' : World) data origin :
  loadFromArray data origin w = (Normal tt, w') →
  store (this w')
  = write_rows (store (this w)) (Point.x (Point_new origin))
      (Point.y (Point_new origin)) data
  ∧ bounds (this w') = bounds (this w)
  ∧ callback (this w') = callback (this w)
  ∧ contains (bounds (this w)) (OfLocation origin) = true
  ∧ ∃ region, bounding_frame data origin = Normal region
              ∧ contains (bounds (this w)) (OfFrame region) = true.
Proof.
  rewrite loadFromArray_run.
  destruct (contains _ (OfLocation origin)); cbn [negb]; [|discriminate].
  destruct (bounding_frame data origin) as [region|e]; [|discriminate].
  destruct (contains _ (OfFrame region)) eqn:Hin; cbn [negb]; [|discriminate].
  intros [= <-]. repeat split. by exists region.
Qed.

End LoadedCells.

(** X8.  What a successful [loadFromArray] leaves in the store, for rows of
    any lengths: every cell [data[i][j]] of every row is stored under the
    coordinates [(origin.x + j, origin.y + i)] (an [undefined] cell leaves no
    entry there), also where a row is longer than the first one, which alone
    was measured against the bounds; every key that is not the key of such a
    cell keeps the entry, or the absence of one, it had; the bounds and the
    callback slot are unchanged. *)
Theorem loadFromArray_cells
    (w w' : World) (data : list (list Value)) (origin : Location) :
  loadFromArray data origin w = (Normal tt, w') →
  (∀ (i j : nat) row v,
     data !! i = Some row → row !! j = Some v →
     property (store (this w'))
       (point_key (Point.x (Point_new origin) + Z.of_nat j)
                  (Point.y (Point_new origin) + Z.of_nat i)) = v)
  ∧ (∀ k,
       (∀ (i j : nat) row, data !! i = Some row → (j < length row)%nat →
          k ≠ point_key (Point.x (Point_new origin) + Z.of_nat j)
                        (Point.y (Point_new origin) + Z.of_nat i)) →
       store (this w') !! k = store (this w) !! k)
  ∧ bounds (this w') = bounds (this w)
  ∧ callback (this w') = callback (this w).
Proof.
  intros (Hstore & Hbounds & Hcallback & _)%loadFromArray_store.
  rewrite Hstore. split; [|split; [|done]].
  - intros i j row v Hi Hj. by eapply write_rows_cell.
  - intros k Hk. by apply write_rows_lookup_other.
Qed.

Lemma loadFromArray_cells_witness :
  let w' := (loadFromArray [[VNumber 1]; [VNumber 2; VNumber 3; VNumber 4]]
               (IsCoordinate 3 2) sample_world).2 in
  (∀ (i j : nat) row v,
     [[VNumber 1]; [VNumber 2; VNumber 3; VNumber 4]] !! i = Some row →
     row !! j = Some v →
     property (store (this w')) (point_key (3 + Z.of_nat j) (2 + Z.of_nat i)) = v)
  ∧ (∀ k,
       (∀ (i j : nat) row,
          [[VNumber 1]; [VNumber 2; VNumber 3; VNumber 4]] !! i = Some row →
          (j < length row)%nat →
          k ≠ point_key (3 + Z.of_nat j) (2 + Z.of_nat i)) →
       store (this w') !! k = store (this sample_world) !! k)
  ∧ bounds (this w') = bounds (this sample_world)
  ∧ callback (this w') = callback (this sample_world).
Proof.
  apply (loadFromArray_cells sample_world _
           [[VNumber 1]; [VNumber 2; VNumber 3; VNumber 4]] (IsCoordinate 3 2)).
  vm_compute. reflexivity.
Defined.

(** X9.  Empty data.  [loadFromArray([], origin)] never loads nothing: when
    the origin is contained in the bounds it fails on [data[0].length] with a
    TypeError, and otherwise with the out-of-bounds error of the origin, which
    is tested first; either way the DataFrame is left as it was and the
    callback is not called. *)
Theorem loadFromArray_empty_data (w : World) (origin : Location) :
  loadFromArray [] origin w
  = (Throw (if contains (bounds (this w)) (OfLocation origin)
            then TypeError else OriginNotContained origin), w).
Proof.
  rewrite loadFromArray_run. by destruct (contains _ _).
Qed.

(** ** Clearing *)

Section Clearing.

Implicit Types (w : World) (F : Frame.t).

Lemma new_well_formed F :
  well_formed F = true → Frame.new (Frame.origin F) (Frame.corner F) = Normal F.
Proof. unfold well_formed, Frame.new. intros ->. by destruct F. Qed.

Lemma well_formed_spec F :
  well_formed F = true ↔
  Point.x (Frame.origin F) ≤ Point.x (Frame.corner F)
  ∧ Point.y (Frame.origin F) ≤ Point.y (Frame.corner F).
Proof. unfold well_formed. rewrite andb_true_iff, !Z.leb_le. done. Qed.

(** [clear] statement by statement: the store is emptied first, so it is
    empty also when the Frame for the callback cannot be built. *)
Lemma clear_run w :
  clear w
  = let emptied := with_store w ∅ in
    match callback (this w) with
    | Some f =>
        match Frame.new (Frame.origin (bounds (this w)))
                (Frame.corner (bounds (this w))) with
        | Normal whole =>
            (Normal tt, mkWorld (this emptied) (calls w ++ [mkCall f (OfFrame whole) ∅]))
        | Throw e => (Throw e, emptied)
        end
    | None => (Normal tt, emptied)
    end.
Proof.
  unfold clear, bind, setStore, getThis, with_store. simpl.
  destruct (callback (this w)); [|done].
  unfold bind, lift. by destruct (Frame.new _ _).
Qed.

End Clearing.

(** X10.  [clear] on a DataFrame with well-formed bounds removes every entry
    and keeps the bounds and the callback slot; a registered callback is
    called exactly once, after the store has been emptied, with the Frame of
    the whole bounds; afterwards [isFull] is false and [getAt] returns
    [undefined] at every location inside the bounds. *)
Theorem clear_empties (w : World) :
  well_formed (bounds (this w)) = true →
  ∃ w',
    clear w = (Normal tt, w')
    ∧ store (this w') = ∅
    ∧ bounds (this w') = bounds (this w)
    ∧ callback (this w') = callback (this w)
    ∧ calls w'
      = calls w ++
        match callback (this w) with
        | Some f => [mkCall f (OfFrame (bounds (this w))) ∅]
        | None => []
        end
    ∧ isFull w' = (Normal false, w')
    ∧ ∀ l, contains (bounds (this w)) (OfLocation l) = true →
           getAt (Loc l) w' = (Normal VUndefined, w').
Proof.
  intros Hwf. rewrite clear_run. cbv zeta. rewrite (new_well_formed _ Hwf).
  assert (∀ w', store (this w') = ∅ → bounds (this w') = bounds (this w) →
                isFull w' = (Normal false, w')
                ∧ ∀ l, contains (bounds (this w)) (OfLocation l) = true →
                       getAt (Loc l) w' = (Normal VUndefined, w')) as Hafter.
  { intros w' Hstore Hbounds. split.
    - unfold isFull, bind, getThis, ret. rewrite Hstore, Hbounds.
      do 2 f_equal. apply Z.eqb_neq.
      apply well_formed_spec in Hwf as [Hx Hy].
      unfold Object_keys. rewrite map_to_list_empty. simpl.
      unfold Frame.area, Frame.width, Frame.height. nia.
    - intros l Hl. rewrite getAt_Loc, Hbounds, Hl, Hstore. done. }
  destruct (callback (this w)) as [f|] eqn:Hcb; eexists;
    (split; [reflexivity|]);
    cbn [this calls with_store store bounds callback];
    rewrite ?app_nil_r, ?Hcb; do 4 (split; [done|]); by apply Hafter.
Qed.

Lemma clear_empties_witness :
  ∃ w',
    clear sample_world = (Normal tt, w')
    ∧ store (this w') = ∅
    ∧ bounds (this w') = bounds (this sample_world)
    ∧ callback (this w') = callback (this sample_world)
    ∧ calls w'
      = calls sample_world ++
        match callback (this sample_world) with
        | Some f => [mkCall f (OfFrame (bounds (this sample_world))) ∅]
        | None => []
        end
    ∧ isFull w' = (Normal false, w')
    ∧ ∀ l, contains (bounds (this sample_world)) (OfLocation l) = true →
           getAt (Loc l) w' = (Normal VUndefined, w').
Proof. apply (clear_empties sample_world). reflexivity. Defined.

(** ** What the mutators keep *)

Section Invariants.

Implicit Types (w : World) (s : gmap string Value) (F : Frame.t).

Lemma holds_written s k v x y :
  holds (written s k v) x y →
  (k = point_key x y ∧ strictly_undefined v = false) ∨ holds s x y.
Proof.
  unfold holds, written. destruct (decide (k = point_key x y)) as [->|Hne].
  - destruct (strictly_undefined v); [|by left].
    rewrite lookup_delete_eq. by intros [? ?].
  - destruct (strictly_undefined v);
      rewrite ?lookup_delete_ne, ?lookup_insert_ne by done; by right.
Qed.

Lemma write_row_holds s X Y (row : list Value) x y :
  holds (write_row s X Y row) x y →
  holds s x y ∨ (y = Y ∧ X ≤ x < X + Z.of_nat (length row)).
Proof.
  revert s X. induction row as [|v row IH]; intros s X; simpl; [by left|].
  intros [Hs|[-> Hx]]%IH; [|right; lia].
  apply holds_written in Hs as [[[-> ->]%point_key_inj _]|Hs]; [right; lia|by left].
Qed.

Lemma write_rows_holds s X Y (data : list (list Value)) x y :
  holds (write_rows s X Y data) x y →
  holds s x y
  ∨ ∃ (i : nat) row, data !! i = Some row ∧ y = Y + Z.of_nat i
                     ∧ X ≤ x < X + Z.of_nat (length row).
Proof.
  revert s Y. induction data as [|row data IH]; intros s Y; simpl; [by left|].
  intros [Hs|(i & row' & Hi & -> & Hx)]%IH.
  - apply write_row_holds in Hs as [Hs|[-> Hx]]; [by left|].
    right. exists 0%nat, row. split; [done|]. split; [lia|done].
  - right. exists (S i), row'. split; [done|]. split; [lia|done].
Qed.

Lemma coordinate_keyed_holds s :
  coordinate_keyed s = true →
  ∀ k, is_Some (s !! k) → ∃ x y, k = point_key x y ∧ holds s x y.
Proof.
  intros Hkeyed k Hk.
  destruct (proj1 (coordinate_keyed_spec s) Hkeyed k Hk) as (x & y & ->).
  by exists x, y.
Qed.

Lemma coordinate_keyed_written s x y v :
  coordinate_keyed s = true → coordinate_keyed (written s (point_key x y) v) = true.
Proof.
  rewrite !coordinate_keyed_spec. intros Hkeyed k Hk.
  destruct (decide (point_key x y = k)) as [<-|Hne]; [eauto|].
  rewrite lookup_written_ne in Hk by done. by apply Hkeyed.
Qed.

Lemma coordinate_keyed_write_row s X Y (row : list Value) :
  coordinate_keyed s = true → coordinate_keyed (write_row s X Y row) = true.
Proof.
  revert s X. induction row as [|v row IH]; intros s X Hs; simpl; [done|].
  by apply IH, coordinate_keyed_written.
Qed.

Lemma coordinate_keyed_write_rows s X Y (data : list (list Value)) :
  coordinate_keyed s = true → coordinate_keyed (write_rows s X Y data) = true.
Proof.
  revert s Y. induction data as [|row data IH]; intros s Y Hs; simpl; [done|].
  by apply IH, coordinate_keyed_write_row.
Qed.

Lemma decode_key_point_key x y : decode_key (point_key x y) = Some (x, y).
Proof. unfold decode_key. by rewrite point_key_parse. Qed.

(** On a coordinate-keyed store, [keys_within] says that the Frame contains
    the coordinates of every entry. *)
Lemma keys_within_spec F s :
  coordinate_keyed s = true →
  keys_within F s = true ↔ ∀ x y, holds s x y → Frame.contains_xy F x y = true.
Proof.
  intros Hkeyed. destruct (coordinate_keyed_decode _ Hkeyed) as [P HP].
  unfold keys_within. rewrite HP, forallb_forall.
  setoid_rewrite <- list_elem_of_In. setoid_rewrite list_elem_of_fmap.
  setoid_rewrite (holds_decoded _ _ _ _ HP). split.
  - intros Hall x y Hin.
    specialize (Hall (point_key x y)). rewrite decode_key_point_key in Hall.
    apply Hall. by exists (x, y).
  - intros Hall k ([x y] & -> & Hin). simpl. rewrite decode_key_point_key.
    by apply Hall.
Qed.

(** Each mutator keeps the keys decodable and the bounds, also when it
    throws. *)
Lemma perform_keeps w (m : Mutation) :
  coordinate_keyed (store (this w)) = true →
  coordinate_keyed (store (this (perform m w).2)) = true
  ∧ bounds (this (perform m w).2) = bounds (this w).
Proof.
  intros Hkeyed. destruct m as [[l|] v notify|data origin| |f]; cbn [perform].
  - rewrite putAt_Loc. cbn [snd this with_store store bounds]. split; [|done].
    rewrite key_of_Point_new. by apply coordinate_keyed_written.
  - done.
  - rewrite loadFromArray_run.
    destruct (contains _ (OfLocation origin)); cbn [negb]; [|done].
    destruct (bounding_frame data origin) as [region|e]; [|done].
    destruct (contains _ (OfFrame region)); cbn [negb]; [|done].
    cbn [snd this with_store store bounds]. split; [|done].
    by apply coordinate_keyed_write_rows.
  - rewrite clear_run. cbv zeta.
    destruct (callback (this w)); [destruct (Frame.new _ _)|]; done.
  - done.
Qed.

End Invariants.



Section KeysWithin.

Implicit Types (w : World) (s : gmap string Value) (F : Frame.t).

Lemma bounding_frame_inv data origin region :
  bounding_frame data origin = Normal region →
  ∃ row0 rest, data = row0 :: rest
    ∧ region = anchored (Point_new origin) (length data) (length row0).
Proof.
  destruct data as [|row0 rest]; [done|]. unfold bounding_frame, Frame.new.
  case_match; [|done]. intros [= <-]. by exists row0, rest.
Qed.

Lemma keys_within_empty F : keys_within F ∅ = true.
Proof. unfold keys_within, Object_keys. by rewrite map_to_list_empty. Qed.

(** A call that stays inside the bounds keeps every entry inside them. *)
Lemma perform_keeps_within w (m : Mutation) :
  coordinate_keyed (store (this w)) = true →
  keys_within (bounds (this w)) (store (this w)) = true →
  stays_inside (bounds (this w)) m = true →
  keys_within (bounds (this w)) (store (this (perform m w).2)) = true.
Proof.
  intros Hkeyed Hwithin Hm.
  destruct (perform_keeps w m Hkeyed) as [Hkeyed' _].
  apply keys_within_spec; [done|]. clear Hkeyed'.
  pose proof (proj1 (keys_within_spec _ _ Hkeyed) Hwithin) as Hs.
  destruct m as [[l|] v notify|data origin| |f]; cbn [perform]; try done.
  - rewrite putAt_Loc. cbn [snd this with_store store]. intros x y Hxy.
    apply holds_written in Hxy as [[Hkey Hv]|Hxy]; [|by apply Hs].
    cbn [stays_inside] in Hm. rewrite Hv in Hm. cbn [orb] in Hm.
    rewrite contains_Point_new in Hm. rewrite key_of_Point_new in Hkey.
    by apply point_key_inj in Hkey as [<- <-].
  - rewrite loadFromArray_run.
    destruct (contains _ (OfLocation origin)); cbn [negb]; [|done].
    destruct (bounding_frame data origin) as [region|e] eqn:Hregion; [|done].
    destruct (contains _ (OfFrame region)) eqn:Hin; cbn [negb]; [|done].
    cbn [snd this with_store store]. intros x y Hxy.
    apply write_rows_holds in Hxy as [Hxy|(i & row & Hi & -> & Hx)];
      [by apply Hs|].
    apply bounding_frame_inv in Hregion as (row0 & rest & -> & ->).
    cbn [stays_inside] in Hm.
    assert (length row ≤ length row0)%nat as Hlen.
    { destruct i as [|i]; [by injection Hi as ->|]. simpl in Hi.
      rewrite forallb_forall in Hm. apply Nat.leb_le, Hm.
      apply list_elem_of_In, list_elem_of_lookup. eauto. }
    pose proof (lookup_lt_Some _ _ _ Hi) as Hrows.
    cbn [contains] in Hin. unfold Frame.contains_frame, anchored in Hin.
    apply andb_true_iff in Hin as [Ho Hc].
    apply contains_xy_spec in Ho, Hc. apply contains_xy_spec.
    cbn [Frame.origin Frame.corner Point.x Point.y] in *. lia.
  - rewrite clear_run. cbv zeta. intros x y.
    assert (∀ w', store (this w') = ∅ → holds (store (this w')) x y →
                  Frame.contains_xy (bounds (this w)) x y = true) as Hempty.
    { intros w' -> [? Habs]. by rewrite lookup_empty in Habs. }
    destruct (callback (this w)); [destruct (Frame.new _ _)|];
      by apply Hempty.
Qed.

End KeysWithin.

(** X12.  As long as every write stays inside the bounds (each [putAt] is a
    deletion or is given a location the bounds contain, and no row handed to
    [loadFromArray] is longer than its first row), every entry of the store
    has coordinates inside the bounds, whatever the order of the calls and
    whether they succeed or throw. *)
Theorem entries_stay_within_bounds (ms : list Mutation) (w : World) :
  coordinate_keyed (store (this w)) = true →
  keys_within (bounds (this w)) (store (this w)) = true →
  forallb (stays_inside (bounds (this w))) ms = true →
  keys_within (bounds (this w)) (store (this (perform_all ms w))) = true.
Proof.
  revert w. induction ms as [|m ms IH]; intros w Hkeyed Hwithin Hms;
    cbn [perform_all]; [done|].
  cbn [forallb] in Hms. apply andb_true_iff in Hms as [Hm Hms].
  destruct (perform_keeps w m Hkeyed) as [Hkeyed' Hbounds].
  pose proof (perform_keeps_within w m Hkeyed Hwithin Hm) as Hwithin'.
  rewrite <- Hbounds in Hwithin', Hms |- *. by apply IH.
Qed.

Lemma entries_stay_within_bounds_witness :
  let ms := [DoPutAt (Loc (IsPoint (Point.mk 3 1))) VNull true;
             DoPutAt (Loc (IsCoordinate 40 40)) VUndefined false;
             DoLoadFromArray sample_data (IsCoordinate 2 2);
             DoLoadFromArray sample_data (IsCoordinate 3 3);
             DoClear;
             DoLoadFromArray [[VNumber 1; VNumber 2]; [VNumber 3]] (IsCoordinate 0 1)] in
  keys_within (bounds (this sample_world)) (store (this (perform_all ms sample_world)))
  = true.
Proof.
  apply (entries_stay_within_bounds _ sample_world); reflexivity.
Defined.

(** ** Counting entries *)

Section Counting.

Implicit Types (w : World) (s : gmap string Value) (F : Frame.t).

Lemma coordinates_spec F x y :
  (x, y) ∈ concat (Frame.coordinateRows F) ↔ Frame.contains_xy F x y = true.
Proof.
  rewrite <- (points_spec F (Point.mk x y)). unfold Frame.points.
  rewrite list_elem_of_fmap. split.
  - intros Hin. by exists (x, y).
  - by intros ([x' y'] & [= -> ->] & Hin).
Qed.

Lemma NoDup_grid (xs ys : list Z) :
  NoDup xs → NoDup ys →
  NoDup (concat ((λ y, (λ x, (x, y)) <$> xs) <$> ys)).
Proof.
  intros Hxs. induction 1 as [|y ys Hy Hys IH]; simpl; [constructor|].
  apply NoDup_app. split; [|split; [|done]].
  - apply NoDup_fmap_2_strong; [|done]. by intros ? ? _ _ [= ->].
  - intros c (x & -> & _)%list_elem_of_fmap Hin.
    apply list_elem_of_In, in_concat in Hin as (row & Hrow & Hin).
    apply list_elem_of_In, list_elem_of_fmap in Hrow as (y' & -> & Hy').
    apply list_elem_of_In, list_elem_of_fmap in Hin as (x' & [= _ ->] & _).
    done.
Qed.

Lemma length_grid {A} (g : Z → Z → A) (xs ys : list Z) :
  length (concat ((λ y, g y <$> xs) <$> ys)) = (length ys * length xs)%nat.
Proof.
  induction ys as [|y ys IH]; [done|].
  rewrite fmap_cons. cbn [concat].
  rewrite length_app, length_fmap, IH. done.
Qed.

Lemma length_coordinates F :
  well_formed F = true →
  Z.of_nat (length (concat (Frame.coordinateRows F))) = Frame.area F.
Proof.
  intros [Hx Hy]%well_formed_spec. unfold Frame.coordinateRows.
  pose proof (length_grid (λ y x, (x, y))
                (seqZ (Point.x (Frame.origin F)) (Frame.width F))
                (seqZ (Point.y (Frame.origin F)) (Frame.height F))) as Hlen.
  cbv beta in Hlen. rewrite Hlen, !length_seqZ.
  unfold Frame.area, Frame.width, Frame.height. lia.
Qed.

Lemma length_Object_keys s : length (Object_keys s) = size (dom s).
Proof.
  unfold Object_keys. by rewrite length_fmap, length_map_to_list, size_dom.
Qed.

(** The keys of the coordinates a Frame contains, as a set. *)
Lemma keys_of_frame F :
  ∃ P : gset string,
    (∀ k, k ∈ P ↔ ∃ x y, k = point_key x y ∧ Frame.contains_xy F x y = true)
    ∧ (well_formed F = true → Z.of_nat (size P) = Frame.area F).
Proof.
  exists (list_to_set ((λ c, point_key c.1 c.2) <$> concat (Frame.coordinateRows F))).
  split.
  - intros k. rewrite elem_of_list_to_set, list_elem_of_fmap. split.
    + intros ([x y] & -> & Hin%coordinates_spec). by exists x, y.
    + intros (x & y & -> & Hin%coordinates_spec). by exists (x, y).
  - intros Hwf.
    rewrite size_list_to_set; [rewrite length_fmap; by apply length_coordinates|].
    apply NoDup_fmap_2_strong.
    + intros [x y] [x' y'] _ _ Heq. simpl in Heq.
      by apply point_key_inj in Heq as [-> ->].
    + apply NoDup_grid; apply NoDup_seqZ.
Qed.

End Counting.

(** What [isFull] answers when no entry lies outside the bounds. *)
Lemma isFull_within_bounds (w : World) :
  well_formed (bounds (this w)) = true →
  coordinate_keyed (store (this w)) = true →
  keys_within (bounds (this w)) (store (this w)) = true →
  ∃ b,
    isFull w = (Normal b, w)
    ∧ (b = true ↔
       ∀ x y, Frame.contains_xy (bounds (this w)) x y = true →
              holds (store (this w)) x y).
Proof.
  intros Hwf Hkeyed Hwithin. eexists. split; [reflexivity|].
  rewrite Z.eqb_eq, length_Object_keys.
  destruct (keys_of_frame (bounds (this w))) as (P & HP & Hsize).
  rewrite <- (Hsize Hwf).
  pose proof (proj1 (keys_within_spec _ _ Hkeyed) Hwithin) as Hs.
  assert (dom (store (this w)) ⊆ P) as Hsub.
  { intros k Hk%elem_of_dom.
    destruct (coordinate_keyed_holds _ Hkeyed k Hk) as (x & y & -> & Hxy).
    apply HP. exists x, y. split; [done|]. by apply Hs. }
  split.
  - intros Hsizes x y Hxy.
    assert (dom (store (this w)) = P) as Heq
      by (apply set_subseteq_size_eq; [done|lia]).
    apply elem_of_dom. rewrite Heq. apply HP. by exists x, y.
  - intros Hall. f_equal. apply Nat.le_antisymm; apply subseteq_size; [|done].
    intros k (x & y & -> & Hxy)%HP. apply elem_of_dom. by apply Hall.
Qed.


(** X13.  When every entry of the store has coordinates inside the
    (well-formed) bounds, [isFull] means what its name says: it is true
    exactly when every location inside the bounds has an entry.  (Without
    that condition it does not: see C9.) *)
Theorem isFull_means_every_location_set (w : World) :
  well_formed (bounds (this w)) = true →
  coordinate_keyed (store (this w)) = true →
  keys_within (bounds (this w)) (store (this w)) = true →
  ∃ b,
    isFull w = (Normal b, w)
    ∧ (b = true ↔
       ∀ x y, Frame.contains_xy (bounds (this w)) x y = true →
              holds (store (this w)) x y).
Proof. apply isFull_within_bounds. Qed.

Lemma isFull_means_every_location_set_witness :
  ∃ b,
    isFull sample_world = (Normal b, sample_world)
    ∧ (b = true ↔
       ∀ x y, Frame.contains_xy (bounds (this sample_world)) x y = true →
              holds (store (this sample_world)) x y).
Proof. apply (isFull_means_every_location_set sample_world); reflexivity. Defined.

(** ** The whole content as an array *)

Section WholeContent.

Implicit Types (w : World) (s : gmap string Value) (F G : Frame.t).

(** A Frame contains the tightest Frame around the entries exactly when it
    contains every entry. *)
Lemma tightest_contained s F G :
  tightest s F →
  Frame.contains_frame G F = true ↔
  ∀ x y, holds s x y → Frame.contains_xy G x y = true.
Proof.
  intros (Hall & [y1 H1] & [x2 H2] & [y3 H3] & [x4 H4]).
  unfold Frame.contains_frame. rewrite andb_true_iff, !contains_xy_spec. split.
  - intros [Ho Hc] x y Hxy%Hall. apply contains_xy_spec in Hxy.
    apply contains_xy_spec. lia.
  - intros HG.
    apply HG, contains_xy_spec in H1, H2, H3, H4. lia.
Qed.

(** The tightest Frame around the entries is the Frame whose Points are the
    entries, when there is one. *)
Lemma tightest_unique s F G :
  tightest s F → well_formed G = true →
  (∀ x y, holds s x y ↔ Frame.contains_xy G x y = true) →
  F = G.
Proof.
  intros (Hall & [y1 H1] & [x2 H2] & [y3 H3] & [x4 H4]) [Hx Hy]%well_formed_spec HG.
  apply HG, contains_xy_spec in H1, H2, H3, H4.
  assert (holds s (Point.x (Frame.origin G)) (Point.y (Frame.origin G))) as Ho
    by (apply HG, contains_xy_spec; lia).
  assert (holds s (Point.x (Frame.corner G)) (Point.y (Frame.corner G))) as Hc
    by (apply HG, contains_xy_spec; lia).
  apply Hall, contains_xy_spec in Ho, Hc.
  destruct F as [[ox oy] [cx cy]], G as [[ox' oy'] [cx' cy']]. simpl in *.
  repeat f_equal; lia.
Qed.

Lemma toArray_strict_run w F :
  minFrame w = (Normal F, w) → toArray true w = getDataArrayForFrame F w.
Proof. intros HF. cbn [toArray]. unfold bind. by rewrite HF. Qed.

Lemma toArray_from_origin_run w F :
  minFrame w = (Normal F, w) →
  Point.x (Frame.origin (bounds (this w))) ≤ Point.x (Frame.corner F) →
  Point.y (Frame.origin (bounds (this w))) ≤ Point.y (Frame.corner F) →
  toArray false w
  = getDataArrayForFrame (Frame.mk (Frame.origin (bounds (this w))) (Frame.corner F)) w.
Proof.
  intros HF Hx Hy. cbn [toArray]. unfold bind at 1.
  rewrite (minFrameFromOrigin_run w F HF). unfold Frame.new.
  by rewrite (proj2 (Z.leb_le _ _) Hx), (proj2 (Z.leb_le _ _) Hy).
Qed.

(** The entries of an empty store loaded with fully defined rectangular data
    are the cells of the anchored region. *)
Lemma holds_loaded X Y (data : list (list Value)) (cols : nat) x y :
  Forall (λ row, length row = cols) data →
  fully_defined data = true →
  holds (write_rows ∅ X Y data) x y
  ↔ X ≤ x < X + Z.of_nat cols ∧ Y ≤ y < Y + Z.of_nat (length data).
Proof.
  intros Hrect Hdef. split.
  - intros [[? Habs]|(i & row & Hi & -> & Hx)]%write_rows_holds;
      [by rewrite lookup_empty in Habs|].
    rewrite (proj1 (Forall_lookup _ _) Hrect i row Hi) in Hx.
    apply lookup_lt_Some in Hi. lia.
  - intros [Hx Hy].
    destruct (data !! Z.to_nat (y - Y)) as [row|] eqn:Hi;
      [|apply lookup_ge_None in Hi; lia].
    pose proof (proj1 (Forall_lookup _ _) Hrect _ row Hi) as Hlen. simpl in Hlen.
    destruct (row !! Z.to_nat (x - X)) as [v|] eqn:Hj;
      [|apply lookup_ge_None in Hj; lia].
    pose proof (write_rows_cell ∅ X Y data _ _ row v Hi Hj) as Hcell.
    rewrite !Z2Nat.id in Hcell by lia.
    replace (X + (x - X)) with x in Hcell by lia.
    replace (Y + (y - Y)) with y in Hcell by lia.
    assert (strictly_undefined v = false) as Hv.
    { unfold fully_defined in Hdef. rewrite forallb_forall in Hdef.
      specialize (Hdef row). rewrite forallb_forall in Hdef.
      apply negb_true_iff, Hdef; apply list_elem_of_In, list_elem_of_lookup; eauto. }
    unfold holds. unfold property in Hcell.
    destruct (write_rows ∅ X Y data !! point_key x y); [done|].
    simpl in Hcell. by subst v.
Qed.

End WholeContent.

(** X14.  [toArray] and entries outside the bounds.  On a store that is not
    empty: when every entry has coordinates inside the bounds, the strict
    [toArray] returns an array, and so does the default one if the bounds are
    well-formed; as soon as one entry lies outside the bounds (which
    [putAt] allows), the strict [toArray] throws the not-contained error. *)
Theorem toArray_and_entries_outside (w : World) :
  store (this w) ≠ ∅ →
  coordinate_keyed (store (this w)) = true →
  (keys_within (bounds (this w)) (store (this w)) = true →
     (∃ rows, toArray true w = (Normal rows, w))
     ∧ (well_formed (bounds (this w)) = true →
        ∃ rows, toArray false w = (Normal rows, w)))
  ∧ (keys_within (bounds (this w)) (store (this w)) = false →
     toArray true w = (Throw FrameNotContained, w)).
Proof.
  intros Hne Hkeyed.
  destruct (minFrame_run w Hne Hkeyed) as (F & HF & Htight).
  pose proof (tightest_contained _ F (bounds (this w)) Htight) as Hiff.
  rewrite <- (keys_within_spec _ _ Hkeyed) in Hiff.
  rewrite (toArray_strict_run w F HF). split.
  - intros Hwithin. apply Hiff in Hwithin. split.
    + rewrite getDataArrayForFrame_contained by done. by eexists.
    + intros [Hx Hy]%well_formed_spec.
      unfold Frame.contains_frame in Hwithin.
      apply andb_true_iff in Hwithin as [Ho Hc].
      pose proof Hc as Hc'. apply contains_xy_spec in Hc'.
      rewrite (toArray_from_origin_run w F HF) by lia.
      rewrite getDataArrayForFrame_contained; [by eexists|].
      cbn [contains]. unfold Frame.contains_frame.
      cbn [Frame.origin Frame.corner]. rewrite Hc, andb_true_r.
      apply contains_xy_spec. lia.
  - intros Hwithin. apply getDataArrayForFrame_not_contained.
    cbn [contains]. destruct (Frame.contains_frame _ F); [|done].
    rewrite (proj1 Hiff eq_refl) in Hwithin. done.
Qed.

Lemma toArray_and_entries_outside_witness :
  toArray true (putAt (Loc (IsCoordinate 4 0)) VNull false sample_world).2
  = (Throw FrameNotContained,
     (putAt (Loc (IsCoordinate 4 0)) VNull false sample_world).2).
Proof.
  apply (toArray_and_entries_outside
           (putAt (Loc (IsCoordinate 4 0)) VNull false sample_world).2).
  - vm_compute. discriminate.
  - reflexivity.
  - reflexivity.
Defined.

(** X15.  Round trip through [toArray].  Into a DataFrame whose store is
    empty, load rectangular data without [undefined] cells at an origin such
    that the anchored region is within the bounds: the strict [toArray] then
    returns the data, and the default [toArray] returns the data when the
    origin of the load is the declared origin of the DataFrame. *)
Theorem loadFromArray_then_toArray
    (w : World) (data : list (list Value)) (origin : Location) (rows cols : nat) :
  store (this w) = ∅ →
  (0 < rows)%nat → (0 < cols)%nat →
  length data = rows →
  Forall (λ row, length row = cols) data →
  fully_defined data = true →
  contains (bounds (this w)) (OfFrame (anchored (Point_new origin) rows cols)) = true →
  ∃ w',
    loadFromArray data origin w = (Normal tt, w')
    ∧ toArray true w' = (Normal data, w')
    ∧ (Point_new origin = Frame.origin (bounds (this w)) →
       toArray false w' = (Normal data, w')).
Proof.
  intros Hempty Hrows Hcols Hlen Hrect Hdef Hin.
  assert (contains (bounds (this w)) (OfLocation origin) = true) as Horigin.
  { rewrite contains_Point_new. cbn [contains] in Hin.
    unfold Frame.contains_frame in Hin. by apply andb_true_iff in Hin as [? _]. }
  destruct data as [|row0 rest] eqn:Hdata; [simpl in Hlen; lia|].
  assert (length row0 = cols) as Hrow0 by by inversion Hrect.
  rewrite loadFromArray_run, Horigin. unfold bounding_frame.
  rewrite Hlen, Hrow0, anchored_new, Hin by done. cbn [negb]. cbv zeta.
  rewrite Hempty, <- Hdata in *. clear Hdata row0 rest Hrow0.
  set (o := Point_new origin) in *.
  set (s' := write_rows ∅ (Point.x o) (Point.y o) data).
  eexists. split; [reflexivity|].
  set (w' := mkWorld _ _).
  assert (store (this w') = s') as Hstore by done.
  assert (bounds (this w') = bounds (this w)) as Hbounds by done.
  assert (∀ x y, holds s' x y
                 ↔ Frame.contains_xy (anchored o rows cols) x y = true) as Hheld.
  { intros x y. unfold s'. rewrite (holds_loaded _ _ _ cols) by done.
    rewrite contains_xy_spec, Hlen. unfold anchored. simpl. lia. }
  assert (well_formed (anchored o rows cols) = true) as Hwf.
  { apply well_formed_spec. unfold anchored. simpl. lia. }
  assert (s' ≠ ∅) as Hne.
  { intros Hs'. destruct (proj2 (Hheld (Point.x o) (Point.y o))) as [v Hv].
    - apply contains_xy_spec. unfold anchored. simpl. lia.
    - by rewrite Hs', lookup_empty in Hv. }
  assert (coordinate_keyed s' = true) as Hkeyed
    by by apply coordinate_keyed_write_rows.
  destruct (minFrame_run w') as (F & HF & Htight); [by rewrite Hstore..|].
  rewrite Hstore in Htight.
  pose proof (tightest_unique _ _ _ Htight Hwf Hheld) as ->.
  assert (getDataArrayForFrame (anchored o rows cols) w' = (Normal data, w'))
    as Hread.
  { rewrite getDataArrayForFrame_contained by (by rewrite Hbounds).
    f_equal. f_equal. unfold Frame.coordinateRows.
    rewrite anchored_width, anchored_height, <- Hlen, Hstore.
    by apply read_written_region. }
  split.
  - by rewrite (toArray_strict_run w' _ HF).
  - intros Ho. rewrite (toArray_from_origin_run w' _ HF).
    + by rewrite Hbounds, <- Ho.
    + rewrite Hbounds, <- Ho. unfold anchored. simpl. lia.
    + rewrite Hbounds, <- Ho. unfold anchored. simpl. lia.
Qed.

Lemma loadFromArray_then_toArray_witness :
  ∃ w',
    loadFromArray [[VNumber 1; VNull]; [VString "a"; VBoolean true]]
      (IsCoordinate 0 0) empty_world = (Normal tt, w')
    ∧ toArray true w'
      = (Normal [[VNumber 1; VNull]; [VString "a"; VBoolean true]], w')
    ∧ (Point_new (IsCoordinate 0 0) = Frame.origin (bounds (this empty_world)) →
       toArray false w'
       = (Normal [[VNumber 1; VNull]; [VString "a"; VBoolean true]], w')).
Proof.
  apply (loadFromArray_then_toArray empty_world
           [[VNumber 1; VNull]; [VString "a"; VBoolean true]]
           (IsCoordinate 0 0) 2 2);
    [reflexivity | lia | lia | reflexivity | repeat constructor
    | reflexivity | reflexivity].
Defined.

(** ** MouseHandler *)

Section Mouse.

Import MouseHandler.

Implicit Types (h : MouseHandler.t) (event : Event)
  (events : list (EventType * Event)).

Lemma handle_all_app h events events' :
  handle_all h (events ++ events')
  = let '(h', calls) := handle_all h events in
    let '(h'', calls') := handle_all h' events' in
    (h'', calls ++ calls').
Proof.
  revert h. induction events as [|[type event] events IH]; intros h; simpl.
  - by destruct (handle_all h events').
  - destruct (listener type h event) as [h1 calls1]. rewrite IH.
    destruct (handle_all h1 events) as [h2 calls2].
    destruct (handle_all h2 events') as [h3 calls3]. by rewrite app_assoc.
Qed.

(** Only a press on a cell starts selecting, and without one no listener
    extends the selection. *)
Lemma listener_not_pressed h type event :
  isSelecting h = false → is_press (type, event) = false →
  isSelecting (listener type h event).1 = false
  ∧ SelectFromAnchorToRelativeCursor ∉ (listener type h event).2.
Proof.
  destruct h as [selecting]. cbn [isSelecting]. intros -> Hpress.
  unfold is_press in Hpress. cbn [fst snd] in Hpress.
  assert (∀ cs : list Call,
            Forall (λ c, c ≠ SelectFromAnchorToRelativeCursor) cs →
            SelectFromAnchorToRelativeCursor ∉ cs) as Hnone.
  { intros cs Hcs Hin. by apply (proj1 (Forall_forall _ _) Hcs _ Hin). }
  destruct type; cbn [listener].
  - unfold onCellEnter. cbn [isSelecting]. rewrite andb_false_r.
    split; [done|apply not_elem_of_nil].
  - unfold onMouseDown. rewrite Hpress. split; [done|apply not_elem_of_nil].
  - split; [done|apply not_elem_of_nil].
  - unfold onDoubleClick. destruct (isCell event); (split; [done|]);
      apply Hnone; by repeat constructor.
  - unfold onMouseWheel. cbn [fst snd]. split; [done|].
    apply Hnone. repeat case_match; by repeat constructor.
Qed.

(** Only a release ends selecting. *)
Lemma listener_still_pressed h type event :
  isSelecting h = true → type ≠ mouseup →
  isSelecting (listener type h event).1 = true.
Proof.
  destruct h as [selecting]. cbn [isSelecting]. intros -> Htype.
  destruct type; cbn [listener]; try done.
  - unfold onCellEnter. by destruct (isCell event && _).
  - unfold onMouseDown. by destruct (isCell event).
  - unfold onDoubleClick. by destruct (isCell event).
Qed.

End Mouse.

(** X16.  Every listener of the MouseHandler announces what it does to the
    selection: if it makes a call that moves the cursor, the anchor or the
    selection, it calls [dispatchSelectionChanged] exactly once, as its last
    call; if it makes no such call, it does not dispatch at all.  A wheel
    event whose [wheelDelta] is zero or missing only has its propagation
    stopped. *)
Theorem selection_changes_are_announced
    (type : MouseHandler.EventType) (h : MouseHandler.t)
    (event : MouseHandler.Event) :
  let calls := (MouseHandler.listener type h event).2 in
  ((existsb MouseHandler.changes_selection calls = true
    ∧ ∃ before, calls = before ++ [MouseHandler.DispatchSelectionChanged]
                ∧ MouseHandler.DispatchSelectionChanged ∉ before)
   ∨ (existsb MouseHandler.changes_selection calls = false
      ∧ MouseHandler.DispatchSelectionChanged ∉ calls))
  ∧ (type = MouseHandler.wheel →
     Js.lt (MouseHandler.wheelDelta event) (Int 0) = false →
     Js.lt (Int 0) (MouseHandler.wheelDelta event) = false →
     calls = [MouseHandler.StopPropagation]).
Proof.
  assert (∀ cs : list MouseHandler.Call,
            Forall (λ c, c ≠ MouseHandler.DispatchSelectionChanged) cs →
            MouseHandler.DispatchSelectionChanged ∉ cs) as Hnone.
  { intros cs Hcs Hin. by apply (proj1 (Forall_forall _ _) Hcs _ Hin). }
  cbv zeta. split.
  - destruct type, h as [selecting], event as [t cell delta ctrl shift];
      cbn [MouseHandler.listener];
      unfold MouseHandler.onCellEnter, MouseHandler.onMouseDown,
        MouseHandler.onMouseUp, MouseHandler.onDoubleClick,
        MouseHandler.onMouseWheel;
      cbn [MouseHandler.isCell MouseHandler.isSelecting MouseHandler.target
           MouseHandler.wheelDelta MouseHandler.ctrlKey MouseHandler.shiftKey];
      destruct cell, selecting, ctrl;
      destruct (Js.lt delta (Int 0)), (Js.lt (Int 0) delta);
      cbn [andb fst snd].
    all: first
      [ right; split; [reflexivity|];
        apply Hnone; repeat (apply List.Forall_cons; [discriminate|]);
        apply List.Forall_nil
      | left; split; [reflexivity|];
        eexists [_; _]; split; [reflexivity|];
        apply Hnone; repeat (apply List.Forall_cons; [discriminate|]);
        apply List.Forall_nil
      | left; split; [reflexivity|];
        eexists [_; _; _; _]; split; [reflexivity|];
        apply Hnone; repeat (apply List.Forall_cons; [discriminate|]);
        apply List.Forall_nil ].
  - intros -> Hneg Hpos. cbn [MouseHandler.listener snd].
    unfold MouseHandler.onMouseWheel. by rewrite Hneg, Hpos.
Qed.

(** X17.  Dragging.  While no button has been pressed on a cell, no sequence
    of events makes the MouseHandler extend the selection, and it stays out
    of the selecting state; once it is selecting, it stays so through every
    event but a release, and entering a cell then moves the cursor there,
    selects from the anchor to it and announces the change. *)
Theorem drag_selects_only_while_pressed :
  (∀ (h : MouseHandler.t) events,
     MouseHandler.isSelecting h = false →
     forallb (λ e, negb (MouseHandler.is_press e)) events = true →
     MouseHandler.isSelecting (MouseHandler.handle_all h events).1 = false
     ∧ MouseHandler.SelectFromAnchorToRelativeCursor
         ∉ (MouseHandler.handle_all h events).2)
  ∧ (∀ (h : MouseHandler.t) events (enter : MouseHandler.Event),
       MouseHandler.isSelecting h = true →
       Forall (λ e, e.1 ≠ MouseHandler.mouseup) events →
       MouseHandler.isCell enter = true →
       ∃ before,
         (MouseHandler.handle_all h (events ++ [(MouseHandler.mouseover, enter)])).2
         = before ++
           [MouseHandler.SetCursorToElement (MouseHandler.target enter);
            MouseHandler.SelectFromAnchorToRelativeCursor;
            MouseHandler.DispatchSelectionChanged]).
Proof.
  split.
  - intros h events. revert h.
    induction events as [|[type event] events IH]; intros h Hh Hevents.
    { split; [done|apply not_elem_of_nil]. }
    cbn [forallb] in Hevents. apply andb_true_iff in Hevents as [He Hevents].
    apply negb_true_iff in He.
    destruct (listener_not_pressed h type event Hh He) as [Hh' Hcalls].
    cbn [MouseHandler.handle_all].
    destruct (MouseHandler.listener type h event) as [h' calls].
    destruct (IH h' Hh' Hevents) as [Hfinal Hrest].
    destruct (MouseHandler.handle_all h' events) as [h'' calls'].
    split; [done|]. simpl in *. rewrite elem_of_app. tauto.
  - intros h events enter Hh Hevents Henter.
    rewrite handle_all_app.
    assert (MouseHandler.isSelecting (MouseHandler.handle_all h events).1 = true)
      as Hstill.
    { revert h Hh. induction Hevents as [|[type event] events Htype _ IH];
        intros h Hh; [done|].
      cbn [MouseHandler.handle_all].
      pose proof (listener_still_pressed h type event Hh Htype) as Hh'.
      destruct (MouseHandler.listener type h event) as [h' calls].
      specialize (IH h' Hh').
      by destruct (MouseHandler.handle_all h' events). }
    destruct (MouseHandler.handle_all h events) as [[selecting] calls].
    simpl in Hstill. subst selecting. cbn.
    unfold MouseHandler.onCellEnter. rewrite Henter. cbn. by exists calls.
Qed.

Lemma drag_selects_only_while_pressed_witness :
  let released :=
    MouseHandler.mkEvent 0 true (Int 0) false false in
  let events :=
    [(MouseHandler.mouseover, released); (MouseHandler.dblclick, released);
     (MouseHandler.wheel, MouseHandler.mkEvent 0 true (Int (-120)) true false);
     (MouseHandler.mouseup, released); (MouseHandler.mouseover, released)] in
  MouseHandler.isSelecting
    (MouseHandler.handle_all (MouseHandler.mk false) events).1 = false
  ∧ MouseHandler.SelectFromAnchorToRelativeCursor
      ∉ (MouseHandler.handle_all (MouseHandler.mk false) events).2.
Proof.
  apply (proj1 drag_selects_only_while_pressed (MouseHandler.mk false));
    reflexivity.
Defined.

(** X18.  Filling a DataFrame.  Into a DataFrame with well-formed bounds and
    an empty store, load at the declared origin rectangular data without
    [undefined] cells that has as many rows as the bounds are high and as
    many columns as they are wide (as the sheet does when it is created):
    the load succeeds and [isFull] is then true. *)
Theorem loadFromArray_whole_bounds_fills
    (w : World) (data : list (list Value)) (origin : Location) :
  store (this w) = ∅ →
  well_formed (bounds (this w)) = true →
  Point_new origin = Frame.origin (bounds (this w)) →
  Z.of_nat (length data) = Frame.height (bounds (this w)) →
  Forall (λ row, Z.of_nat (length row) = Frame.width (bounds (this w))) data →
  fully_defined data = true →
  ∃ w', loadFromArray data origin w = (Normal tt, w')
        ∧ isFull w' = (Normal true, w').
Proof.
  intros Hempty Hwf Ho Hrows Hrect Hdef.
  pose proof (proj1 (well_formed_spec _) Hwf) as [Hx Hy].
  unfold Frame.height in Hrows.
  destruct data as [|row0 rest] eqn:Hdata; [simpl in Hrows; lia|].
  assert (Z.of_nat (length row0) = Frame.width (bounds (this w))) as Hrow0
    by by inversion Hrect.
  unfold Frame.width in Hrow0.
  assert (anchored (Point_new origin) (length (row0 :: rest)) (length row0)
          = bounds (this w)) as Hregion.
  { rewrite Ho. unfold anchored.
    destruct (bounds (this w)) as [[ox oy] [cx cy]].
    cbn [Frame.origin Frame.corner Point.x Point.y] in *.
    repeat f_equal; lia. }
  assert (contains (bounds (this w)) (OfFrame (bounds (this w))) = true) as Hself.
  { cbn [contains]. unfold Frame.contains_frame.
    apply andb_true_iff. split; apply contains_xy_spec; lia. }
  assert (contains (bounds (this w)) (OfLocation origin) = true) as Horigin.
  { rewrite contains_Point_new, Ho. apply contains_xy_spec. lia. }
  rewrite loadFromArray_run, Horigin. unfold bounding_frame.
  rewrite anchored_new, Hregion, Hself by (simpl; lia).
  cbn [negb]. cbv zeta. rewrite Hempty, <- Hdata in *.
  set (s' := write_rows ∅ _ _ data).
  eexists. split; [reflexivity|]. set (w' := mkWorld _ _).
  assert (∀ x y, holds s' x y
                 ↔ Frame.contains_xy (bounds (this w)) x y = true) as Hheld.
  { intros x y. unfold s'.
    rewrite (holds_loaded _ _ _ (length row0)), contains_xy_spec, Ho; [lia| |done].
    eapply Forall_impl; [exact Hrect|]. unfold Frame.width. simpl. lia. }
  assert (coordinate_keyed s' = true) as Hkeyed
    by by apply coordinate_keyed_write_rows.
  destruct (isFull_within_bounds w') as (b & Hfull & Hb); try done.
  - apply keys_within_spec; [done|]. intros x y. apply Hheld.
  - rewrite Hfull. do 2 f_equal. apply Hb. intros x y. apply Hheld.
Qed.

Lemma loadFromArray_whole_bounds_fills_witness :
  let w := mkWorld (mkDataFrame (Frame.mk (Point.mk 1 1) (Point.mk 2 2)) ∅ None) [] in
  ∃ w', loadFromArray [[VNumber 1; VNull]; [VString "a"; VBoolean true]]
          (IsPoint (Point.mk 1 1)) w = (Normal tt, w')
        ∧ isFull w' = (Normal true, w').
Proof.
  apply (loadFromArray_whole_bounds_fills
           (mkWorld (mkDataFrame (Frame.mk (Point.mk 1 1) (Point.mk 2 2)) ∅ None) [])
           [[VNumber 1; VNull]; [VString "a"; VBoolean true]]
           (IsPoint (Point.mk 1 1)));
    [reflexivity | reflexivity | reflexivity | reflexivity
    | repeat constructor | reflexivity].
Defined.
